(** * The instruction controller of the CPU emulator

    A shallow embedding of [core/machine/instruction_controller.py]: the
    operand resolver, the micro-op handlers ([i_add] ... [i_hlt]) and the
    dispatch loop ([execute]), followed by the properties of the
    specification that can be stated on them.

    Python integers are unbounded and are modelled by [Z]; a Python [str] is
    a sequence of code points and is modelled by [list Z]; a generator is
    modelled by a function from the controller's state to a [Run]: how the
    drained generator ended, the state it left behind, and the state seen at
    every [yield]. *)

From Stdlib Require Import ZArith List String Bool Lia DecimalPos.
Import ListNotations.
Open Scope Z_scope.

(** ** Data model *)

(** Modelled from the spec: the operand classes of [core.model] are imported
    by the controller but not part of the sources.  The controller reads the
    fields [value], [label] and [offset]; a register is identified by its
    name. *)
Inductive Operand : Type :=
| Constant (value : Z)
| Register (name : string)
| Address (label : string) (value : Z)
| IndirectAddress (label : string) (value : Z) (offset : Operand)
| Label (name : string) (value : Z).

(** Modelled from the spec: [core.model.Instruction], a name, the operands
    and the (possibly empty) sub-instructions. *)
#[warnings="-register-all"]
Inductive Instruction : Type :=
  mkInstruction { name : string; operands : list Operand; sub : list Instruction }.

(** Modelled from the spec: the exceptions that can leave the controller.
    [OperandIsNotWriteable] and [ProgramExit] are imported from
    [core.exceptions], which is not part of the sources;
    [ALUDZeroDivisionError] is the arithmetic unit's, named in the docstrings
    of [i_div] and [i_mod]; the others are Python's own. *)
Inductive Exception : Type :=
| OperandIsNotWriteable (value : Z)
| ProgramExit
| ALUDZeroDivisionError
| ValueError
| KeyError (key : string)
| TypeError
| IndexError
| AttributeError.

(** Modelled from the spec: the field access [operand.value], for the
    operand classes that are not part of the sources.  A register
    identifies a slot of the register file and carries no numeric value. *)
Definition operand_value (operand : Operand) : Exception + Z :=
  match operand with
  | Constant value => inr value
  | Register _ => inl AttributeError
  | Address _ value => inr value
  | IndirectAddress _ value _ => inr value
  | Label _ value => inr value
  end.

(** ** Python built-ins used by the handlers *)

Module builtins.

(** [chr(i)]: the one-character string of code point [i]. *)
Definition chr (i : Z) : Exception + list Z :=
  if (0 <=? i) && (i <? 1114112) then inr [i] else inl ValueError.

(** [ord(c)] of a character taken out of a string: its code point. *)
Definition ord (c : Z) : Z := c.

Fixpoint uint_codes (u : Decimal.uint) : list Z :=
  match u with
  | Decimal.Nil => []
  | Decimal.D0 u => 48 :: uint_codes u
  | Decimal.D1 u => 49 :: uint_codes u
  | Decimal.D2 u => 50 :: uint_codes u
  | Decimal.D3 u => 51 :: uint_codes u
  | Decimal.D4 u => 52 :: uint_codes u
  | Decimal.D5 u => 53 :: uint_codes u
  | Decimal.D6 u => 54 :: uint_codes u
  | Decimal.D7 u => 55 :: uint_codes u
  | Decimal.D8 u => 56 :: uint_codes u
  | Decimal.D9 u => 57 :: uint_codes u
  end.

(** [str(value)] of an integer: the decimal digits, after a ['-'] (code 45)
    when the value is negative (the interpreter's optional limit on the
    number of digits is taken as switched off). *)
Definition str (value : Z) : list Z :=
  match Z.to_int value with
  | Decimal.Pos u => uint_codes u
  | Decimal.Neg u => 45 :: uint_codes u
  end.

Definition is_space (c : Z) : bool := ((9 <=? c) && (c <=? 13)) || (c =? 32).

Definition digit_of (c : Z) : option Z :=
  if (48 <=? c) && (c <=? 57) then Some (c - 48) else None.

Fixpoint lstrip (s : list Z) : list Z :=
  match s with
  | c :: s' => if is_space c then lstrip s' else s
  | [] => []
  end.

(** The digits after a first digit of value [acc]: more digits, each
    possibly preceded by one underscore.  Returns the value and what follows
    the literal. *)
Fixpoint digits (acc : Z) (s : list Z) : option (Z * list Z) :=
  match s with
  | [] => Some (acc, [])
  | c :: s' =>
      match digit_of c with
      | Some d => digits (acc * 10 + d) s'
      | None =>
          if c =? 95 then
            match s' with
            | c' :: s'' =>
                match digit_of c' with
                | Some d => digits (acc * 10 + d) s''
                | None => None
                end
            | [] => None
            end
          else Some (acc, s)
      end
  end.

(** [int(s)] of a string, base 10: surrounding white space, an optional
    sign, digits with single underscores between them.  Code points above
    127 (other scripts' digits and spaces) are not covered and are taken as
    malformed, and the interpreter's optional limit on the number of digits
    is taken as switched off. *)
Definition int (s : list Z) : Exception + Z :=
  let s := lstrip s in
  let signed :=
    match s with
    | c :: s' => if c =? 43 then (false, s') else if c =? 45 then (true, s') else (false, s)
    | [] => (false, s)
    end in
  match snd signed with
  | c :: s' =>
      match digit_of c with
      | Some d =>
          match digits d s' with
          | Some (v, rest) =>
              if forallb is_space rest
              then inr (if fst signed then - v else v)
              else inl ValueError
          | None => inl ValueError
          end
      | None => inl ValueError
      end
  | [] => inl ValueError
  end.

End builtins.

(** The functions of Python's [operator] module that the handlers pass to
    the arithmetic unit. *)
Module operator.

Inductive t : Type := add | sub | mul | floordiv | mod_ | xor | and_ | or_.

(** Applying the function; [None] is Python's [ZeroDivisionError]. Python's
    [//] and [%] round towards minus infinity, as [Z.div] and [Z.modulo]
    do. *)
Definition apply (f : t) (a b : Z) : option Z :=
  match f with
  | add => Some (a + b)
  | sub => Some (a - b)
  | mul => Some (a * b)
  | floordiv => if b =? 0 then None else Some (a / b)
  | mod_ => if b =? 0 then None else Some (a mod b)
  | xor => Some (Z.lxor a b)
  | and_ => Some (Z.land a b)
  | or_ => Some (Z.lor a b)
  end.

End operator.

(** ** Collaborators *)

Module ClockGenerator.

(** Modelled from the spec: the clock ([core.machine.clock], not part of
    the sources) keeps a cycle counter and an instruction counter. *)
Record t : Type := mk { ticks : nat; instructions : nat }.

(** Modelled from the spec: [tick()], one cycle elapsed. *)
Definition tick (c : t) : t := mk (S (ticks c)) (instructions c).

(** Modelled from the spec: [inst()], one instruction completed. *)
Definition inst (c : t) : t := mk (ticks c) (S (instructions c)).

End ClockGenerator.

Module Flag.

(** Modelled from the spec: the two condition flags of [core.machine.alu],
    which is not part of the sources. *)
Inductive t : Type := Z | N.

End Flag.

Module ALU.

(** Modelled from the spec: the arithmetic unit ([core.machine.alu], not
    part of the sources) holds the flags Z and N. *)
Record t : Type := mk { flag_Z : bool; flag_N : bool }.

(** Modelled from the spec: [get_flag(flag_id)]. *)
Definition get_flag (flag : Flag.t) (alu : t) : bool :=
  match flag with
  | Flag.Z => flag_Z alu
  | Flag.N => flag_N alu
  end.

(** Modelled from the spec: [operation(reducer, a, b)] applies the given
    binary function and returns its result, setting Z iff the result is
    zero and N iff it is negative; it faults on a division by zero, leaving
    the flags as they were. *)
Definition operation (f : operator.t) (a b : Z) (alu : t) : Exception + (Z * t) :=
  match operator.apply f a b with
  | Some result => inr (result, mk (result =? 0) (result <? 0))
  | None => inl ALUDZeroDivisionError
  end.

End ALU.

Module RegisterController.

(** Modelled from the spec: the register file
    ([core.machine.register_controller], not part of the sources) is a store
    indexed by register, with the instruction pointer next to it. *)
Record t : Type := mk { file : string -> Z; instruction_pointer : Z }.

(** Modelled from the spec: [get(register)]. *)
Definition get (r : string) (regs : t) : Z := file regs r.

(** Modelled from the spec: [set(register, value)]. *)
Definition set (r : string) (value : Z) (regs : t) : t :=
  mk (fun r' => if String.eqb r' r then value else file regs r')
     (instruction_pointer regs).

(** Modelled from the spec: [get_instruction_pointer()]. *)
Definition get_instruction_pointer (regs : t) : Z := instruction_pointer regs.

(** Modelled from the spec: [set_instruction_pointer(value)]. *)
Definition set_instruction_pointer (value : Z) (regs : t) : t :=
  mk (file regs) value.

End RegisterController.

(** The memory ([core.machine.memory_controller], not part of the sources)
    is taken as a parameter: [get] and [set] at a label and an offset.  It
    stands for data cells as well as for character streams, so a read
    returns the memory it leaves behind along with the value. *)
Class MemoryController (Mem : Type) : Type := {
  mem_get : string -> Z -> Mem -> Z * Mem;
  mem_set : string -> Z -> Z -> Mem -> Mem
}.

(** The constant the controller imports from [core.machine.config], which
    is not part of the sources, taken as a parameter. *)
Class Config : Type := { NULL_TERM : Z }.

(** ** The controller and its generators *)

(** How a drained generator (or a plain call) ended.  [Pending] is a run
    that was still going when the bound on loop iterations was reached. *)
Inductive Completion (A : Type) : Type :=
| Returned (a : A)
| Raised (e : Exception)
| Pending.

Arguments Returned {A} a.
Arguments Raised {A} e.
Arguments Pending {A}.

(** The fields of an [InstructionController] object, the collaborators held
    by reference included; [Mem] is the type of the memory. *)
Record InstructionController (Mem : Type) : Type := mkController {
  current : option Instruction;
  current_sub : option Instruction;
  clock : ClockGenerator.t;
  alu : ALU.t;
  memory : Mem;
  registers : RegisterController.t
}.

Arguments mkController {Mem} _ _ _ _ _ _.
Arguments current {Mem} _.
Arguments current_sub {Mem} _.
Arguments clock {Mem} _.
Arguments alu {Mem} _.
Arguments memory {Mem} _.
Arguments registers {Mem} _.

(** The result of running a method from a state: its completion, the state
    it leaves, and the states at its suspension points, oldest first. *)
Record Run (Mem A : Type) : Type := mkRun {
  outcome : Completion A;
  final : InstructionController Mem;
  suspended : list (InstructionController Mem)
}.

Arguments mkRun {Mem A} _ _ _.
Arguments outcome {Mem A} _.
Arguments final {Mem A} _.
Arguments suspended {Mem A} _.

(** ** A machine for the examples *)

(** A memory with data cells, an input stream read at label [IN] (the
    terminator once it is exhausted) and an output stream written at label
    [OUT]. *)
Module Example.

Record Memory : Type := mk { cells : string -> Z -> Z; input : list Z; output : list Z }.

Definition get (label : string) (value : Z) (m : Memory) : Z * Memory :=
  if String.eqb label "IN" then
    match input m with
    | c :: rest => (c, mk (cells m) rest (output m))
    | [] => (0, m)
    end
  else (cells m label value, m).

Definition set (label : string) (value : Z) (v : Z) (m : Memory) : Memory :=
  if String.eqb label "OUT" then mk (cells m) (input m) (output m ++ [v])
  else
    mk (fun l o => if String.eqb l label && (o =? value) then v else cells m l o)
       (input m) (output m).

#[global] Instance memory_controller : MemoryController Memory :=
  {| mem_get := get; mem_set := set |}.

#[global] Instance config : Config := {| NULL_TERM := 0 |}.

(** A machine at rest: counters, flags, registers and cells at zero, the
    given characters waiting on the input stream. *)
Definition machine (characters : list Z) : InstructionController Memory :=
  mkController None None (ClockGenerator.mk 0 0) (ALU.mk false false)
    (mk (fun _ _ => 0) characters [])
    (RegisterController.mk (fun _ => 0) 0).

End Example.

(** ** The methods of the controller *)
Section Controller.

Context {Mem : Type} `{MemoryController Mem} `{Config}.

Implicit Types self st : InstructionController Mem.

(** A method or generator of the controller, run to its end from a state
    of the controller. *)
Definition Gen (A : Type) : Type := InstructionController Mem -> Run Mem A.

(** [return a]. *)
Definition ret {A : Type} (a : A) : Gen A :=
  fun self => mkRun (Returned a) self [].

(** [raise e]: the state reached so far stays as it is. *)
Definition raise {A : Type} (e : Exception) : Gen A :=
  fun self => mkRun (Raised e) self [].

(** A loop that has used up its bound on iterations. *)
Definition pending {A : Type} : Gen A :=
  fun self => mkRun Pending self [].

(** [yield]: a suspension point, at which the driver sees the state. *)
Definition yield : Gen unit :=
  fun self => mkRun (Returned tt) self [self].

(** Sequencing: an exception or an exhausted bound in [m] ends the run; the
    suspension points of [m] come before those of what follows. *)
Definition bind {A B : Type} (m : Gen A) (f : A -> Gen B) : Gen B :=
  fun self =>
    let r := m self in
    match outcome r with
    | Returned a =>
        let r' := f a (final r) in
        mkRun (outcome r') (final r') (suspended r ++ suspended r')
    | Raised e => mkRun (Raised e) (final r) (suspended r)
    | Pending => mkRun Pending (final r) (suspended r)
    end.

Notation "x <- m ;; k" := (bind m (fun x => k))
  (at level 61, m at next level, right associativity).
Notation "m ;; k" := (bind m (fun _ => k))
  (at level 61, right associativity).

(** A call to a built-in that returns or raises. *)
Definition lift {A : Type} (r : Exception + A) : Gen A :=
  match r with
  | inr a => ret a
  | inl e => raise e
  end.

(** A [for] loop over a list. *)
Fixpoint for_ {A : Type} (items : list A) (body : A -> Gen unit) : Gen unit :=
  match items with
  | [] => ret tt
  | item :: rest => body item ;; for_ rest body
  end.

(** *** Calls on the collaborators *)

Definition clock_tick : Gen unit := fun self =>
  mkRun (Returned tt)
    (mkController (current self) (current_sub self)
       (ClockGenerator.tick (clock self)) (alu self) (memory self) (registers self)) [].

Definition clock_inst : Gen unit := fun self =>
  mkRun (Returned tt)
    (mkController (current self) (current_sub self)
       (ClockGenerator.inst (clock self)) (alu self) (memory self) (registers self)) [].

Definition alu_get_flag (flag : Flag.t) : Gen bool := fun self =>
  mkRun (Returned (ALU.get_flag flag (alu self))) self [].

Definition alu_operation (f : operator.t) (a b : Z) : Gen Z := fun self =>
  match ALU.operation f a b (alu self) with
  | inr (result, alu') =>
      mkRun (Returned result)
        (mkController (current self) (current_sub self)
           (clock self) alu' (memory self) (registers self)) []
  | inl e => mkRun (Raised e) self []
  end.

Definition memory_get (label : string) (value : Z) : Gen Z := fun self =>
  let got := mem_get label value (memory self) in
  mkRun (Returned (fst got))
    (mkController (current self) (current_sub self)
       (clock self) (alu self) (snd got) (registers self)) [].

Definition memory_set (label : string) (value : Z) (v : Z) : Gen unit := fun self =>
  mkRun (Returned tt)
    (mkController (current self) (current_sub self)
       (clock self) (alu self) (mem_set label value v (memory self)) (registers self)) [].

Definition registers_get (r : string) : Gen Z := fun self =>
  mkRun (Returned (RegisterController.get r (registers self))) self [].

Definition registers_set (r : string) (v : Z) : Gen unit := fun self =>
  mkRun (Returned tt)
    (mkController (current self) (current_sub self)
       (clock self) (alu self) (memory self) (RegisterController.set r v (registers self))) [].

Definition registers_get_instruction_pointer : Gen Z := fun self =>
  mkRun (Returned (RegisterController.get_instruction_pointer (registers self))) self [].

Definition registers_set_instruction_pointer (v : Z) : Gen unit := fun self =>
  mkRun (Returned tt)
    (mkController (current self) (current_sub self)
       (clock self) (alu self) (memory self)
       (RegisterController.set_instruction_pointer v (registers self))) [].

Definition set_current (i : option Instruction) : Gen unit := fun self =>
  mkRun (Returned tt)
    (mkController i (current_sub self)
       (clock self) (alu self) (memory self) (registers self)) [].

Definition set_current_sub (i : option Instruction) : Gen unit := fun self =>
  mkRun (Returned tt)
    (mkController (current self) i
       (clock self) (alu self) (memory self) (registers self)) [].

(** *** Operand resolver *)

Fixpoint get_operand_value (operand : Operand) : Gen Z :=
  match operand with
  | IndirectAddress label value offset =>
      offset <- get_operand_value offset ;;
      memory_get label (value + offset)
  | Address label value => memory_get label value
  | Register r => registers_get r
  | Constant value => ret value
  | Label _ value => ret value
  end.

Definition set_operand_value (operand : Operand) (value : Z) : Gen unit :=
  match operand with
  | IndirectAddress label base offset =>
      offset <- get_operand_value offset ;;
      memory_set label (base + offset) value
  | Address label base => memory_set label base value
  | Register r => registers_set r value
  | Constant v => raise (OperandIsNotWriteable v)
  | Label _ v => raise (OperandIsNotWriteable v)
  end.

Definition _same_bus (op1 op2 : Operand) : bool :=
  (match op1 with Address _ _ | IndirectAddress _ _ _ => true | _ => false end
   && match op2 with Address _ _ | IndirectAddress _ _ _ => true | _ => false end)
  || (match op1 with Register _ => true | _ => false end
      && match op2 with Register _ => true | _ => false end).

Definition _jump_to (label : Operand) : Gen unit :=
  value <- lift (operand_value label) ;;
  registers_set_instruction_pointer (value - 1).

Definition _reduce_op (reducer : operator.t) (dest : Operand) (operands : list Operand)
  : Gen unit :=
  match operands with
  | [] => raise IndexError
  | operand :: _ =>
      op1 <- get_operand_value dest ;;
      (if _same_bus dest operand then clock_tick ;; yield else ret tt) ;;
      op2 <- get_operand_value operand ;;
      clock_tick ;; yield ;;
      result <- alu_operation reducer op1 op2 ;;
      clock_tick ;; yield ;;
      set_operand_value dest result
  end.

Definition _jmp_if (label : Operand) (condition : bool) : Gen unit :=
  if condition then _jump_to label else ret tt.

(** *** Instruction handlers *)

Definition i_add (dest : Operand) (ops : list Operand) : Gen unit :=
  _reduce_op operator.add dest ops.

Definition i_sub (dest : Operand) (ops : list Operand) : Gen unit :=
  _reduce_op operator.sub dest ops.

Definition i_mul (dest : Operand) (ops : list Operand) : Gen unit :=
  _reduce_op operator.mul dest ops.

Definition i_div (dest : Operand) (ops : list Operand) : Gen unit :=
  _reduce_op operator.floordiv dest ops.

Definition i_mod (dest : Operand) (ops : list Operand) : Gen unit :=
  _reduce_op operator.mod_ dest ops.

Definition i_xor (dest : Operand) (ops : list Operand) : Gen unit :=
  _reduce_op operator.xor dest ops.

Definition i_and (dest : Operand) (ops : list Operand) : Gen unit :=
  _reduce_op operator.and_ dest ops.

Definition i_or (dest : Operand) (ops : list Operand) : Gen unit :=
  _reduce_op operator.or_ dest ops.

Definition i_dec (dest : Operand) : Gen unit :=
  value <- get_operand_value dest ;;
  clock_tick ;; yield ;;
  set_operand_value dest (value - 1).

Definition i_inc (dest : Operand) : Gen unit :=
  value <- get_operand_value dest ;;
  clock_tick ;; yield ;;
  set_operand_value dest (value + 1).

Definition i_jmp (label : Operand) : Gen unit :=
  _jump_to label.

Definition i_je (label : Operand) : Gen unit :=
  z <- alu_get_flag Flag.Z ;;
  _jmp_if label z.

Definition i_jne (label : Operand) : Gen unit :=
  z <- alu_get_flag Flag.Z ;;
  _jmp_if label (negb z).

Definition i_jl (label : Operand) : Gen unit :=
  n <- alu_get_flag Flag.N ;;
  _jmp_if label n.

Definition i_jg (label : Operand) : Gen unit :=
  n <- alu_get_flag Flag.N ;;
  _jmp_if label (negb n).

Definition i_jle (label : Operand) : Gen unit :=
  z <- alu_get_flag Flag.Z ;;
  n <- alu_get_flag Flag.N ;;
  _jmp_if label (z || n).

Definition i_jge (label : Operand) : Gen unit :=
  z <- alu_get_flag Flag.Z ;;
  n <- alu_get_flag Flag.N ;;
  _jmp_if label (z || negb n).

Definition i_mov (dest src : Operand) : Gen unit :=
  value <- get_operand_value src ;;
  clock_tick ;; yield ;;
  set_operand_value dest value.

Definition i_movn (dest src : Operand) : Gen unit :=
  value <- get_operand_value src ;;
  clock_tick ;; yield ;;
  for_ (builtins.str value) (fun digit =>
    set_operand_value dest (builtins.ord digit) ;;
    clock_tick ;; yield).

(** The [while] loop of [i_ldn], at most [fuel] iterations of it; [result]
    is the string read so far. *)
Fixpoint ldn_loop (fuel : nat) (src : Operand) (result : list Z) : Gen (list Z) :=
  match fuel with
  | O => pending
  | S fuel' =>
      digit <- get_operand_value src ;;
      if digit =? NULL_TERM then ret result
      else
        c <- lift (builtins.chr digit) ;;
        clock_tick ;; yield ;;
        ldn_loop fuel' src (result ++ c)
  end.

Definition i_ldn (fuel : nat) (dest src : Operand) : Gen unit :=
  result <- ldn_loop fuel src [] ;;
  number <- lift (builtins.int result) ;;
  set_operand_value dest number.

Definition i_cmp (var src : Operand) : Gen unit :=
  op1 <- get_operand_value var ;;
  (if _same_bus var src then clock_tick ;; yield else ret tt) ;;
  op2 <- get_operand_value src ;;
  clock_tick ;; yield ;;
  _ <- alu_operation operator.sub op1 op2 ;;
  ret tt.

Definition i_hlt : Gen unit :=
  clock_tick ;; yield ;;
  raise ProgramExit.

(** *** Dispatch *)

(** Binding a list of operands to a handler's parameters, as the call
    [handler(self, *instruction.operands)] does; a wrong number of operands
    is a [TypeError]. *)
Definition no_operand (handler : Gen unit) (args : list Operand) : Gen unit :=
  match args with
  | [] => handler
  | _ => raise TypeError
  end.

Definition one_operand (handler : Operand -> Gen unit) (args : list Operand) : Gen unit :=
  match args with
  | [a] => handler a
  | _ => raise TypeError
  end.

Definition two_operands (handler : Operand -> Operand -> Gen unit) (args : list Operand)
  : Gen unit :=
  match args with
  | [a; b] => handler a b
  | _ => raise TypeError
  end.

Definition star_operands (handler : Operand -> list Operand -> Gen unit)
  (args : list Operand) : Gen unit :=
  match args with
  | a :: rest => handler a rest
  | [] => raise TypeError
  end.

(** The dictionary built by [get_all]: the handler registered under a
    mnemonic, if any. *)
Definition get_all (fuel : nat) (key : string) : option (list Operand -> Gen unit) :=
  if String.eqb key "add" then Some (star_operands i_add)
  else if String.eqb key "sub" then Some (star_operands i_sub)
  else if String.eqb key "mul" then Some (star_operands i_mul)
  else if String.eqb key "div" then Some (star_operands i_div)
  else if String.eqb key "mod" then Some (star_operands i_mod)
  else if String.eqb key "xor" then Some (star_operands i_xor)
  else if String.eqb key "and" then Some (star_operands i_and)
  else if String.eqb key "or" then Some (star_operands i_or)
  else if String.eqb key "dec" then Some (one_operand i_dec)
  else if String.eqb key "inc" then Some (one_operand i_inc)
  else if String.eqb key "jmp" then Some (one_operand i_jmp)
  else if String.eqb key "je" then Some (one_operand i_je)
  else if String.eqb key "jne" then Some (one_operand i_jne)
  else if String.eqb key "jl" then Some (one_operand i_jl)
  else if String.eqb key "jg" then Some (one_operand i_jg)
  else if String.eqb key "jle" then Some (one_operand i_jle)
  else if String.eqb key "jge" then Some (one_operand i_jge)
  else if String.eqb key "mov" then Some (two_operands i_mov)
  else if String.eqb key "movn" then Some (two_operands i_movn)
  else if String.eqb key "ldn" then Some (two_operands (i_ldn fuel))
  else if String.eqb key "cmp" then Some (two_operands i_cmp)
  else if String.eqb key "hlt" then Some (no_operand i_hlt)
  else None.

Definition __execute (fuel : nat) (instruction : Instruction) : Gen unit :=
  match get_all fuel (name instruction) with
  | Some handler => handler (operands instruction)
  | None => raise (KeyError (name instruction))
  end.

(** The [if]/[else] block of [execute]: the sub-instructions in turn when
    there are some, the instruction's own handler otherwise. *)
Definition execute_body (fuel : nat) (instruction : Instruction) : Gen unit :=
  match sub instruction with
  | [] => __execute fuel instruction
  | subs =>
      for_ subs (fun sub_instruction =>
        set_current_sub (Some sub_instruction) ;;
        __execute fuel sub_instruction)
  end.

Definition execute (fuel : nat) (instruction : Instruction) : Gen unit :=
  set_current (Some instruction) ;;
  set_current_sub None ;;
  execute_body fuel instruction ;;
  ip <- registers_get_instruction_pointer ;;
  registers_set_instruction_pointer (ip + 1) ;;
  clock_tick ;;
  clock_inst ;;
  yield.

(** *** Vocabulary of the specification *)

Definition ticks_of self : nat :=
  ClockGenerator.ticks (clock self).

Definition instructions_of self : nat :=
  ClockGenerator.instructions (clock self).

Definition pointer_of self : Z :=
  RegisterController.get_instruction_pointer (registers self).

(** The state [self] after [n] more cycles. *)
Definition advance (n : nat) self : InstructionController Mem :=
  mkController (current self) (current_sub self)
    (ClockGenerator.mk (n + ticks_of self) (instructions_of self))
    (alu self) (memory self) (registers self).

Definition with_memory (m : Mem) self : InstructionController Mem :=
  mkController (current self) (current_sub self) (clock self) (alu self) m (registers self).

Definition with_alu (a : ALU.t) self : InstructionController Mem :=
  mkController (current self) (current_sub self) (clock self) a (memory self) (registers self).

Definition with_cursor (i j : option Instruction) self
  : InstructionController Mem :=
  mkController i j (clock self) (alu self) (memory self) (registers self).

(** The specification's [resolve]: the value of an operand and the memory
    after the reads it takes, given the registers and the memory. *)
Fixpoint resolve (operand : Operand) (regs : RegisterController.t) (m : Mem) : Z * Mem :=
  match operand with
  | IndirectAddress label value offset =>
      let inner := resolve offset regs m in
      mem_get label (value + fst inner) (snd inner)
  | Address label value => mem_get label value m
  | Register r => (RegisterController.get r regs, m)
  | Constant value => (value, m)
  | Label _ value => (value, m)
  end.

(** [operand] holds [v] in [self]: resolving it there returns [v]. *)
Definition holds (operand : Operand) (v : Z) self : Prop :=
  outcome (get_operand_value operand self) = Returned v.

(** The memory [m'] is [m] after some reads and no write. *)
Inductive only_reads : Mem -> Mem -> Prop :=
| only_reads_refl (m : Mem) : only_reads m m
| only_reads_get (m : Mem) (label : string) (value : Z) (m' : Mem) :
    only_reads (snd (mem_get label value m)) m' -> only_reads m m'.

(** Reading never changes the memory. *)
Definition pure_reads : Prop :=
  forall (label : string) (value : Z) (m : Mem), snd (mem_get label value m) = m.

(** The operands the write-eligibility rule accepts. *)
Definition writeable (operand : Operand) : bool :=
  match operand with
  | Register _ | Address _ _ | IndirectAddress _ _ _ => true
  | Constant _ | Label _ _ => false
  end.

(** A destination that returns what was last written to it: a register, or
    a directly addressed memory location that behaves as a data cell. *)
Definition keeps_writes (operand : Operand) : Prop :=
  match operand with
  | Register _ => True
  | Address label value =>
      forall (v : Z) (m : Mem), fst (mem_get label value (mem_set label value v m)) = v
  | _ => False
  end.

(** The mnemonic under which each reduction is registered. *)
Definition mnemonic (f : operator.t) : string :=
  match f with
  | operator.add => "add"
  | operator.sub => "sub"
  | operator.mul => "mul"
  | operator.floordiv => "div"
  | operator.mod_ => "mod"
  | operator.xor => "xor"
  | operator.and_ => "and"
  | operator.or_ => "or"
  end.

(** The jump family and the specification's condition table. *)
Inductive Jump : Type := JMP | JE | JNE | JL | JG | JLE | JGE.

Definition jump_mnemonic (j : Jump) : string :=
  match j with
  | JMP => "jmp"
  | JE => "je"
  | JNE => "jne"
  | JL => "jl"
  | JG => "jg"
  | JLE => "jle"
  | JGE => "jge"
  end.

Definition jump_condition (j : Jump) (flags : ALU.t) : bool :=
  let z := ALU.get_flag Flag.Z flags in
  let n := ALU.get_flag Flag.N flags in
  match j with
  | JMP => true
  | JE => z
  | JNE => negb z
  | JL => n
  | JG => negb n
  | JLE => z || n
  | JGE => z || negb n
  end.

(** The state [self] after the first [k] of the characters [chars] were
    written to [dest], a cycle going by after each. *)
Definition emitted (dest : Operand) (chars : list Z) (k : nat) self
  : InstructionController Mem :=
  fold_left
    (fun s c => advance 1 (final (set_operand_value dest (builtins.ord c) s)))
    (firstn k chars) self.


(** A method keeps the clock's books: it never takes cycles back, it leaves
    the instruction counter alone, and when it is still running at the bound
    [fuel] it has consumed at least [fuel] cycles. *)
Definition metered (fuel : nat) {A : Type} (m : Gen A) : Prop :=
  forall self,
    (ticks_of self <= ticks_of (final (m self)))%nat /\
    instructions_of (final (m self)) = instructions_of self /\
    (outcome (m self) = Pending -> (ticks_of self + fuel <= ticks_of (final (m self)))%nat).

(** *** Vocabulary of the further properties *)

(** The mnemonics under which [get_all] registers a handler. *)
Definition mnemonics : list string :=
  ["add"; "sub"; "mul"; "div"; "mod"; "xor"; "and"; "or"; "dec"; "inc";
   "jmp"; "je"; "jne"; "jl"; "jg"; "jle"; "jge"; "mov"; "movn"; "ldn";
   "cmp"; "hlt"]%string.

(** The mnemonics of the jump family. *)
Definition is_jump (key : string) : bool :=
  existsb (String.eqb key) ["jmp"; "je"; "jne"; "jl"; "jg"; "jle"; "jge"]%string.

(** The numbers of operands that the signature of the handler registered
    under [key] binds: at least one for the reductions ([dest, *ops]), one
    for INC, DEC and the jumps, two for MOV, MOVN, LDN and CMP, none for
    HLT. *)
Definition accepts (key : string) (n : nat) : bool :=
  if existsb (String.eqb key)
       ["add"; "sub"; "mul"; "div"; "mod"; "xor"; "and"; "or"]%string
  then (1 <=? n)%nat
  else if existsb (String.eqb key)
            ["dec"; "inc"; "jmp"; "je"; "jne"; "jl"; "jg"; "jle"; "jge"]%string
  then (n =? 1)%nat
  else if existsb (String.eqb key) ["mov"; "movn"; "ldn"; "cmp"]%string
  then (n =? 2)%nat
  else if String.eqb key "hlt" then (n =? 0)%nat
  else false.


(** Whether a jump placed after a comparison of [a] with [b] is taken, as
    the handlers decide it from the flags the comparison leaves. *)
Definition taken_after_cmp (j : Jump) (a b : Z) : bool :=
  match j with
  | JMP => true
  | JE => a =? b
  | JNE => negb (a =? b)
  | JL => a <? b
  | JG => b <=? a
  | JLE => a <=? b
  | JGE => b <=? a
  end.

(** Two states of the controller that differ at most in the cursor
    ([current] and [current_sub]). *)
Definition same_machine self st : Prop :=
  clock self = clock st /\ alu self = alu st /\
  memory self = memory st /\ registers self = registers st.

(** Two methods that cannot be told apart on the machine: from states that
    differ in the cursor only they end the same way, in states that differ
    in the cursor only, at every suspension point too. *)
Definition alike {A : Type} (m m' : Gen A) : Prop :=
  forall self st,
    same_machine self st ->
    outcome (m self) = outcome (m' st) /\
    same_machine (final (m self)) (final (m' st)) /\
    Forall2 same_machine (suspended (m self)) (suspended (m' st)).

(** A method that neither reads the cursor nor lets it leak into the
    machine. *)
Definition cursor_blind {A : Type} (m : Gen A) : Prop := alike m m.

(** A method that keeps the relation [R] between the state it starts from
    and the state it leaves. *)
Definition preserved (R : InstructionController Mem -> InstructionController Mem -> Prop)
  {A : Type} (m : Gen A) : Prop :=
  forall self, R self (final (m self)).

(** [R] does not look at the clock, the flags, the memory or the registers
    other than the instruction pointer. *)
Definition ignores_machine
  (R : InstructionController Mem -> InstructionController Mem -> Prop) : Prop :=
  forall self c a m file,
    R self
      (mkController (current self) (current_sub self) c a m
         (RegisterController.mk file (RegisterController.instruction_pointer (registers self)))).

(** [R] does not look at the instruction pointer. *)
Definition ignores_pointer
  (R : InstructionController Mem -> InstructionController Mem -> Prop) : Prop :=
  forall self v, R self (final (registers_set_instruction_pointer v self)).

(** [R] does not look at the sub-instruction cursor. *)
Definition ignores_current_sub
  (R : InstructionController Mem -> InstructionController Mem -> Prop) : Prop :=
  forall self i, R self (final (set_current_sub i self)).

(** A relation between a state and a later one that holds of a state and
    itself, composes, and does not look at the machine. *)
Definition frame
  (R : InstructionController Mem -> InstructionController Mem -> Prop) : Prop :=
  (forall self, R self self) /\
  (forall s1 s2 s3, R s1 s2 -> R s2 s3 -> R s1 s3) /\
  ignores_machine R.

(** An instruction that cannot jump: no jump is among the handlers
    [execute] runs for it. *)
Definition sequential (instruction : Instruction) : bool :=
  match sub instruction with
  | [] => negb (is_jump (name instruction))
  | subs => forallb (fun sub_instruction => negb (is_jump (name sub_instruction))) subs
  end.

(** Two instruction records that stand for the same call: the same name
    and the same operands. *)
Definition same_call (a b : Instruction) : Prop :=
  name a = name b /\ operands a = operands b.

(** Two instruction records that [execute] cannot tell apart: neither has
    sub-instructions and they stand for the same call, or both have some,
    which stand for the same calls in turn. *)
Definition same_work (a b : Instruction) : Prop :=
  match sub a, sub b with
  | [], [] => same_call a b
  | _ :: _, _ :: _ => Forall2 same_call (sub a) (sub b)
  | _, _ => False
  end.



(** * Properties *)

(** ** Python's [str] and [int] *)





(** ** Running the monad *)

Lemma bind_returned {A B : Type} (m : Gen A) (f : A -> Gen B) self a s sus :
  m self = mkRun (Returned a) s sus ->
  bind m f self = mkRun (outcome (f a s)) (final (f a s)) (sus ++ suspended (f a s)).
Proof. intros E. unfold bind. rewrite E. reflexivity. Qed.

Lemma bind_raised {A B : Type} (m : Gen A) (f : A -> Gen B) self e s sus :
  m self = mkRun (Raised e) s sus ->
  bind m f self = mkRun (Raised e) s sus.
Proof. intros E. unfold bind. rewrite E. reflexivity. Qed.

Lemma run_eta {A : Type} (r : Run Mem A) :
  mkRun (outcome r) (final r) (suspended r) = r.
Proof. destruct r; reflexivity. Qed.

Lemma bind_assoc {A B C : Type} (m : Gen A) (f : A -> Gen B) (g : B -> Gen C) self :
  bind (bind m f) g self = bind m (fun a => bind (f a) g) self.
Proof.
  unfold bind. destruct (m self) as [[a | e |] s sus]; cbn; try reflexivity.
  destruct (f a s) as [[b | e |] s' sus']; cbn; try reflexivity.
  now rewrite app_assoc.
Qed.

Lemma bind_alu_operation {B : Type} f a b (k : Z -> Gen B) self :
  bind (alu_operation f a b) k self =
  match operator.apply f a b with
  | Some result => k result (with_alu (ALU.mk (result =? 0) (result <? 0)) self)
  | None => mkRun (Raised ALUDZeroDivisionError) self []
  end.
Proof.
  unfold bind, alu_operation, ALU.operation.
  destruct (operator.apply f a b) as [result |]; cbn; [apply run_eta | reflexivity].
Qed.

Lemma with_memory_same self : with_memory (memory self) self = self.
Proof. destruct self; reflexivity. Qed.

(** ** The operand resolver *)

(** Reading an operand always returns, suspends nowhere, and only touches
    the memory, through [mem_get]. *)
Lemma get_operand_value_resolve (operand : Operand) self :
  get_operand_value operand self =
  mkRun (Returned (fst (resolve operand (registers self) (memory self))))
        (with_memory (snd (resolve operand (registers self) (memory self))) self) [].
Proof.
  induction operand as [v | r | l v | l v off IH | n v]; cbn [get_operand_value resolve].
  - unfold ret. cbn. now rewrite with_memory_same.
  - unfold registers_get. cbn. now rewrite with_memory_same.
  - reflexivity.
  - erewrite bind_returned by apply IH. reflexivity.
  - unfold ret. cbn. now rewrite with_memory_same.
Qed.

Lemma bind_ret {A B : Type} (a : A) (f : A -> Gen B) self :
  bind (ret a) f self = f a self.
Proof. unfold bind. cbn. apply run_eta. Qed.

Lemma bind_lift_inr {A B : Type} (a : A) (f : A -> Gen B) self :
  bind (lift (inr a)) f self = f a self.
Proof. apply bind_ret. Qed.

Lemma bind_clock_tick {B : Type} (f : unit -> Gen B) self :
  bind clock_tick f self = f tt (advance 1 self).
Proof. unfold bind. cbn. apply run_eta. Qed.

Lemma bind_yield {B : Type} (f : unit -> Gen B) self :
  bind yield f self =
  mkRun (outcome (f tt self)) (final (f tt self)) (self :: suspended (f tt self)).
Proof. reflexivity. Qed.

Lemma bind_get_operand_value {B : Type} operand (f : Z -> Gen B) self :
  bind (get_operand_value operand) f self =
  f (fst (resolve operand (registers self) (memory self)))
    (with_memory (snd (resolve operand (registers self) (memory self))) self).
Proof.
  erewrite bind_returned by apply get_operand_value_resolve.
  apply run_eta.
Qed.

Lemma only_reads_trans (m1 m2 m3 : Mem) :
  only_reads m1 m2 -> only_reads m2 m3 -> only_reads m1 m3.
Proof.
  induction 1 as [m | m l v m' _ IH]; intros H23.
  - exact H23.
  - eapply only_reads_get. apply IH, H23.
Qed.

Lemma resolve_only_reads (operand : Operand) regs (m : Mem) :
  only_reads m (snd (resolve operand regs m)).
Proof.
  revert m.
  induction operand as [v | r | l v | l v off IH | n v]; intros m; cbn [resolve snd].
  - constructor.
  - constructor.
  - eapply only_reads_get. constructor.
  - eapply only_reads_trans; [apply IH |].
    eapply only_reads_get. constructor.
  - constructor.
Qed.

Lemma resolve_pure (operand : Operand) regs (m : Mem) :
  pure_reads -> snd (resolve operand regs m) = m.
Proof.
  intros Hpure.
  induction operand as [v | r | l v | l v off IH | n v]; cbn [resolve snd].
  - reflexivity.
  - reflexivity.
  - apply Hpure.
  - rewrite Hpure. exact IH.
  - reflexivity.
Qed.

(** ** Cycle accounting *)

Ltac open_books :=
  repeat (progress (unfold ticks_of, instructions_of, advance, with_memory, with_alu in *;
                    cbn in *)).

Ltac books :=
  open_books; repeat split; first [reflexivity | lia | discriminate].

Lemma metered_ret fuel {A : Type} (a : A) : metered fuel (ret a).
Proof. intros self. books. Qed.

Lemma metered_raise fuel {A : Type} (e : Exception) : metered fuel (raise (A:=A) e).
Proof. intros self. books. Qed.

Lemma metered_yield fuel : metered fuel yield.
Proof. intros self. books. Qed.

Lemma metered_lift fuel {A : Type} (r : Exception + A) : metered fuel (lift r).
Proof. destruct r; [apply metered_raise | apply metered_ret]. Qed.

Lemma metered_bind fuel {A B : Type} (m : Gen A) (f : A -> Gen B) :
  metered fuel m -> (forall a, metered fuel (f a)) -> metered fuel (bind m f).
Proof.
  intros Hm Hf self. unfold bind.
  destruct (Hm self) as (Ht & Hi & Hp).
  destruct (outcome (m self)) as [a | e |] eqn:E; cbn.
  - destruct (Hf a (final (m self))) as (Ht' & Hi' & Hp').
    repeat split; [lia | congruence |].
    intros P. specialize (Hp' P). lia.
  - repeat split; (assumption || discriminate).
  - repeat split; try assumption. intros _. now apply Hp.
Qed.

Lemma metered_clock_tick fuel : metered fuel clock_tick.
Proof. intros self. books. Qed.

Lemma metered_alu_get_flag fuel flag : metered fuel (alu_get_flag flag).
Proof. intros self. books. Qed.

Lemma metered_alu_operation fuel f a b : metered fuel (alu_operation f a b).
Proof.
  intros self. unfold alu_operation.
  destruct (ALU.operation f a b (alu self)) as [e | [result alu']]; books.
Qed.

Lemma metered_set_current_sub fuel i : metered fuel (set_current_sub i).
Proof. intros self. books. Qed.

Lemma metered_set_pointer fuel v : metered fuel (registers_set_instruction_pointer v).
Proof. intros self. books. Qed.

Lemma metered_get_operand_value fuel operand : metered fuel (get_operand_value operand).
Proof.
  intros self. rewrite get_operand_value_resolve. books.
Qed.

Lemma metered_set_operand_value fuel operand value :
  metered fuel (set_operand_value operand value).
Proof.
  destruct operand as [v | r | l v | l v off | n v]; cbn [set_operand_value].
  - apply metered_raise.
  - intros self. books.
  - intros self. books.
  - apply metered_bind; [apply metered_get_operand_value |].
    intros a self. books.
  - apply metered_raise.
Qed.

Lemma metered_for fuel {A : Type} (items : list A) (body : A -> Gen unit) :
  (forall item, metered fuel (body item)) -> metered fuel (for_ items body).
Proof.
  intros Hbody. induction items as [| item rest IH]; cbn [for_].
  - apply metered_ret.
  - apply metered_bind; [apply Hbody | intros _; exact IH].
Qed.

Create HintDb metered.

#[local] Hint Resolve metered_ret metered_raise metered_yield metered_lift
  metered_clock_tick metered_alu_get_flag metered_alu_operation
  metered_set_current_sub metered_set_pointer metered_get_operand_value
  metered_set_operand_value : metered.

Ltac metered_steps :=
  repeat first
    [ progress intros
    | solve [auto with metered]
    | apply metered_bind
    | apply metered_for
    | match goal with
      | |- metered _ (if ?c then _ else _) => destruct c
      | |- metered _ (match ?x with _ => _ end) => destruct x
      end ].

Lemma metered_jump_to fuel label : metered fuel (_jump_to label).
Proof. unfold _jump_to. metered_steps. Qed.

Lemma metered_jmp_if fuel label condition : metered fuel (_jmp_if label condition).
Proof. unfold _jmp_if. destruct condition; [apply metered_jump_to | apply metered_ret]. Qed.

Lemma metered_reduce_op fuel reducer dest operands :
  metered fuel (_reduce_op reducer dest operands).
Proof. unfold _reduce_op. metered_steps. Qed.

(** One iteration of the loop of [i_ldn]. *)
Lemma ldn_loop_step (k : nat) src result self :
  ldn_loop (S k) src result self =
  let read := resolve src (registers self) (memory self) in
  if fst read =? NULL_TERM
  then mkRun (Returned result) (with_memory (snd read) self) []
  else
    match builtins.chr (fst read) with
    | inl e => mkRun (Raised e) (with_memory (snd read) self) []
    | inr c =>
        let s := advance 1 (with_memory (snd read) self) in
        let r := ldn_loop k src (result ++ c) s in
        mkRun (outcome r) (final r) (s :: suspended r)
    end.
Proof.
  cbn [ldn_loop]. rewrite bind_get_operand_value. cbv zeta.
  destruct (_ =? NULL_TERM); [reflexivity |].
  destruct (builtins.chr _) as [e | c]; [reflexivity |].
  rewrite bind_lift_inr, bind_clock_tick, bind_yield. reflexivity.
Qed.

(** The loop of [i_ldn] consumes one cycle per iteration, so a loop cut
    short after [k] iterations has consumed [k] cycles. *)
Lemma ldn_loop_ticks (k : nat) src result self :
  (ticks_of self <= ticks_of (final (ldn_loop k src result self)))%nat /\
  instructions_of (final (ldn_loop k src result self)) = instructions_of self /\
  (outcome (ldn_loop k src result self) = Pending ->
   (ticks_of self + k <= ticks_of (final (ldn_loop k src result self)))%nat).
Proof.
  revert result self. induction k as [| k IH]; intros result self.
  - books.
  - rewrite ldn_loop_step. cbv zeta.
    set (read := resolve src (registers self) (memory self)).
    destruct (fst read =? NULL_TERM); [books |].
    destruct (builtins.chr (fst read)) as [e | c]; [books |].
    destruct (IH (result ++ c) (advance 1 (with_memory (snd read) self)))
      as (Ht & Hi & Hp).
    open_books. repeat split; [lia | congruence |].
    intros P. specialize (Hp P). lia.
Qed.

Lemma metered_ldn fuel dest src : metered fuel (i_ldn fuel dest src).
Proof.
  unfold i_ldn. apply metered_bind.
  - intros self. apply ldn_loop_ticks.
  - metered_steps.
Qed.

Lemma metered_i_dec fuel dest : metered fuel (i_dec dest).
Proof. unfold i_dec. metered_steps. Qed.

Lemma metered_i_inc fuel dest : metered fuel (i_inc dest).
Proof. unfold i_inc. metered_steps. Qed.

Lemma metered_i_mov fuel dest src : metered fuel (i_mov dest src).
Proof. unfold i_mov. metered_steps. Qed.

Lemma metered_i_movn fuel dest src : metered fuel (i_movn dest src).
Proof. unfold i_movn. metered_steps. Qed.

Lemma metered_i_cmp fuel var src : metered fuel (i_cmp var src).
Proof. unfold i_cmp. metered_steps. Qed.

Lemma metered_i_hlt fuel : metered fuel i_hlt.
Proof. unfold i_hlt. metered_steps. Qed.

#[local] Hint Resolve metered_jump_to metered_jmp_if metered_reduce_op metered_ldn
  metered_i_dec metered_i_inc metered_i_mov metered_i_movn metered_i_cmp
  metered_i_hlt : metered.

(** Every registered handler keeps the clock's books, whatever operands it
    is called with. *)
Lemma metered_handler fuel key handler args :
  get_all fuel key = Some handler -> metered fuel (handler args).
Proof.
  unfold get_all.
  repeat match goal with
         | |- (if ?c then _ else _) = Some _ -> _ => destruct c
         end;
    intros E; try discriminate; injection E as <-;
    unfold no_operand, one_operand, two_operands, star_operands,
      i_add, i_sub, i_mul, i_div, i_mod, i_xor, i_and, i_or,
      i_jmp, i_je, i_jne, i_jl, i_jg, i_jle, i_jge;
    metered_steps.
Qed.

Lemma metered_execute_one fuel instruction : metered fuel (__execute fuel instruction).
Proof.
  unfold __execute.
  destruct (get_all fuel (name instruction)) as [handler |] eqn:E.
  - eapply metered_handler, E.
  - apply metered_raise.
Qed.

Lemma metered_execute_body fuel instruction :
  metered fuel (execute_body fuel instruction).
Proof.
  unfold execute_body. destruct (sub instruction) as [| first others].
  - apply metered_execute_one.
  - apply metered_for. intros item.
    apply metered_bind; [apply metered_set_current_sub |].
    intros _. apply metered_execute_one.
Qed.

(** ** The dispatch loop *)

(** [execute] is its body from the state with the cursor set, followed, when
    the body returns, by the pointer increment, the overhead cycle, the
    instruction count and the last suspension point. *)
Lemma execute_unfold fuel instruction self :
  execute fuel instruction self =
  let body := execute_body fuel instruction (with_cursor (Some instruction) None self) in
  match outcome body with
  | Returned _ =>
      let s := final body in
      let done :=
        mkController (current s) (current_sub s)
          (ClockGenerator.inst (ClockGenerator.tick (clock s))) (alu s) (memory s)
          (RegisterController.set_instruction_pointer (pointer_of s + 1) (registers s)) in
      mkRun (Returned tt) done (suspended body ++ [done])
  | Raised e => mkRun (Raised e) (final body) (suspended body)
  | Pending => mkRun Pending (final body) (suspended body)
  end.
Proof.
  unfold execute, bind. cbn.
  change (mkController (Some instruction) None (clock self) (alu self) (memory self)
            (registers self))
    with (with_cursor (Some instruction) None self).
  destruct (outcome (execute_body fuel instruction _)); reflexivity.
Qed.

(** C1 (as amended): once [execute] has been drained, an instruction whose
    body returned has cost one cycle more than its body, so at least one,
    and has been counted exactly once, its last suspension point being the
    overhead cycle's; an instruction whose handler raised has not been
    counted and the clock is as the handler left it, without the overhead
    cycle; a run cut short at the bound [fuel] has consumed at least [fuel]
    cycles. *)
Theorem execute_clock_accounting (fuel : nat) (instruction : Instruction) self :
  let body := execute_body fuel instruction (with_cursor (Some instruction) None self) in
  let run := execute fuel instruction self in
  match outcome run with
  | Returned _ =>
      ticks_of (final run) = S (ticks_of (final body)) /\
      (ticks_of self + 1 <= ticks_of (final run))%nat /\
      instructions_of (final run) = S (instructions_of self) /\
      exists earlier, suspended run = earlier ++ [final run]
  | Raised _ =>
      clock (final run) = clock (final body) /\
      (ticks_of self <= ticks_of (final run))%nat /\
      instructions_of (final run) = instructions_of self
  | Pending =>
      (ticks_of self + fuel <= ticks_of (final run))%nat /\
      instructions_of (final run) = instructions_of self
  end.
Proof.
  cbv zeta. rewrite execute_unfold. cbv zeta.
  destruct (metered_execute_body fuel instruction
              (with_cursor (Some instruction) None self)) as (Ht & Hi & Hp).
  destruct (outcome (execute_body fuel instruction _)) as [[] | e |];
    cbn [outcome final suspended].
  - split; [reflexivity |]. split; [open_books; lia |]. split; [open_books; lia |].
    eexists. reflexivity.
  - split; [reflexivity |]. split; [exact Ht | exact Hi].
  - split; [exact (Hp eq_refl) | exact Hi].
Qed.

(** C2 (as amended): when the body of [execute] returns, the instruction
    pointer ends one past where the body left it; when the body raises (or
    is cut short), [execute] ends the same way in the state the body left:
    the pointer is not advanced. *)
Theorem execute_pointer_increment (fuel : nat) (instruction : Instruction) self :
  let body := execute_body fuel instruction (with_cursor (Some instruction) None self) in
  let run := execute fuel instruction self in
  match outcome body with
  | Returned _ =>
      outcome run = Returned tt /\
      pointer_of (final run) = pointer_of (final body) + 1
  | Raised e => outcome run = Raised e /\ final run = final body
  | Pending => outcome run = Pending /\ final run = final body
  end.
Proof.
  cbv zeta. rewrite execute_unfold. cbv zeta.
  destruct (outcome (execute_body fuel instruction _)) as [[] | e |];
    cbn [outcome final]; split; reflexivity.
Qed.

(** C3: the handler of HLT consumes one cycle, suspends once and raises
    [ProgramExit], leaving everything but the clock as it was, the
    instruction pointer included; [execute] lets the signal through after
    that single cycle; and [ProgramExit] is none of the faults. *)
Theorem hlt_signals_exit (fuel : nat) self :
  let handler := i_hlt self in
  let run := execute fuel (mkInstruction "hlt" [] []) self in
  outcome handler = Raised ProgramExit /\
  final handler = advance 1 self /\
  suspended handler = [advance 1 self] /\
  pointer_of (final handler) = pointer_of self /\
  outcome run = Raised ProgramExit /\
  ticks_of (final run) = S (ticks_of self) /\
  pointer_of (final run) = pointer_of self /\
  (forall v, ProgramExit <> OperandIsNotWriteable v) /\
  ProgramExit <> ALUDZeroDivisionError /\
  ProgramExit <> ValueError.
Proof.
  cbv zeta. rewrite execute_unfold.
  repeat split; try reflexivity; try discriminate.
Qed.

(** C5: a jump to a label returns; when its condition holds the handler
    leaves the pointer at the label's value minus one and [execute] ends
    with the pointer at the label's value; otherwise the handler leaves the
    pointer alone and [execute] ends one past the starting pointer.  The
    handler takes no cycle and suspends nowhere: the instruction costs the
    one overhead cycle of [execute]. *)
Theorem jump_lands_on_label (j : Jump) (label_name : string) (target : Z)
  (fuel : nat) self :
  let instruction := mkInstruction (jump_mnemonic j) [Label label_name target] [] in
  let handled := __execute fuel instruction self in
  let run := execute fuel instruction self in
  outcome handled = Returned tt /\
  outcome run = Returned tt /\
  suspended handled = [] /\
  ticks_of (final handled) = ticks_of self /\
  ticks_of (final run) = S (ticks_of self) /\
  if jump_condition j (alu self)
  then pointer_of (final handled) = target - 1 /\ pointer_of (final run) = target
  else pointer_of (final handled) = pointer_of self /\
       pointer_of (final run) = pointer_of self + 1.
Proof.
  cbv zeta. rewrite execute_unfold.
  destruct self as [c cs clk [z n] m regs].
  destruct j, z, n; cbn; repeat split; unfold pointer_of; cbn; lia.
Qed.

(** What a write does, by kind of operand. *)
Lemma set_operand_value_run (operand : Operand) (value : Z) self :
  set_operand_value operand value self =
  match operand with
  | Constant v | Label _ v => mkRun (Raised (OperandIsNotWriteable v)) self []
  | Register r =>
      mkRun (Returned tt)
        (mkController (current self) (current_sub self) (clock self) (alu self)
           (memory self) (RegisterController.set r value (registers self))) []
  | Address label base =>
      mkRun (Returned tt) (with_memory (mem_set label base value (memory self)) self) []
  | IndirectAddress label base offset =>
      let inner := resolve offset (registers self) (memory self) in
      mkRun (Returned tt)
        (with_memory (mem_set label (base + fst inner) value (snd inner)) self) []
  end.
Proof.
  destruct operand as [v | r | l v | l v off | n v]; cbn [set_operand_value];
    try reflexivity.
  now rewrite bind_get_operand_value.
Qed.

(** C6: writing to a constant or a label raises [OperandIsNotWriteable] with
    the operand's value and leaves the state as it was; writing to a
    register goes to the register file; writing to an address goes to the
    memory at that address; writing to an indirect address resolves the
    inner offset and goes to the memory at the base offset plus it. *)
Theorem write_eligibility (operand : Operand) (value : Z) self :
  let run := set_operand_value operand value self in
  suspended run = [] /\
  match operand with
  | Constant v | Label _ v =>
      outcome run = Raised (OperandIsNotWriteable v) /\ final run = self
  | Register r =>
      outcome run = Returned tt /\
      final run =
        mkController (current self) (current_sub self) (clock self) (alu self)
          (memory self) (RegisterController.set r value (registers self))
  | Address label base =>
      outcome run = Returned tt /\
      final run = with_memory (mem_set label base value (memory self)) self
  | IndirectAddress label base offset =>
      let inner := resolve offset (registers self) (memory self) in
      outcome run = Returned tt /\
      final run = with_memory (mem_set label (base + fst inner) value (snd inner)) self
  end.
Proof.
  cbv zeta. rewrite set_operand_value_run.
  destruct operand as [v | r | l v | l v off | n v]; repeat split; reflexivity.
Qed.

(** ** Reductions *)

(** The run of a reduction, step by step: the destination is read, then
    (after a cycle of contention when both use the same bus) the first
    source, which takes a cycle; the arithmetic unit either faults, or
    computes, sets the flags and takes a cycle; the result is written to the
    destination. *)
Lemma reduce_op_run (f : operator.t) (dest src : Operand) (rest : list Operand) self :
  _reduce_op f dest (src :: rest) self =
  let d := resolve dest (registers self) (memory self) in
  let s := resolve src (registers self) (snd d) in
  let contention := if _same_bus dest src then 1%nat else 0%nat in
  let waited :=
    if _same_bus dest src then [advance 1 (with_memory (snd d) self)] else [] in
  let fetched := advance (S contention) (with_memory (snd s) self) in
  match operator.apply f (fst d) (fst s) with
  | None => mkRun (Raised ALUDZeroDivisionError) fetched (waited ++ [fetched])
  | Some result =>
      let computed :=
        advance 1 (with_alu (ALU.mk (result =? 0) (result <? 0)) fetched) in
      let written := set_operand_value dest result computed in
      mkRun (outcome written) (final written)
        (waited ++ fetched :: computed :: suspended written)
  end.
Proof.
  cbn [_reduce_op]. rewrite bind_get_operand_value.
  destruct (_same_bus dest src).
  - rewrite bind_assoc, bind_clock_tick, bind_yield.
    rewrite bind_get_operand_value, bind_clock_tick, bind_yield, bind_alu_operation.
    cbn [registers memory advance with_memory].
    destruct (operator.apply f _ _) as [result |]; [| reflexivity].
    rewrite bind_clock_tick, bind_yield. reflexivity.
  - rewrite bind_ret.
    rewrite bind_get_operand_value, bind_clock_tick, bind_yield, bind_alu_operation.
    cbn [registers memory advance with_memory].
    destruct (operator.apply f _ _) as [result |]; [| reflexivity].
    rewrite bind_clock_tick, bind_yield. reflexivity.
Qed.

Lemma holds_resolve (operand : Operand) (v : Z) self :
  holds operand v self <-> fst (resolve operand (registers self) (memory self)) = v.
Proof.
  unfold holds. rewrite get_operand_value_resolve. cbn [outcome].
  split; [intros E; now injection E | now intros ->].
Qed.


(** A reduction instruction without sub-instructions is dispatched to
    [_reduce_op] with its function. *)
Lemma execute_body_reduction (f : operator.t) (dest : Operand) (sources : list Operand)
  (fuel : nat) self :
  execute_body fuel (mkInstruction (mnemonic f) (dest :: sources) []) self =
  _reduce_op f dest sources self.
Proof. destruct f; reflexivity. Qed.

(** C7: a DIV or MOD whose first source reads zero raises the arithmetic
    unit's division-by-zero fault, which also leaves [execute]; the
    registers and the flags are as before and the memory has only been
    read, so no write to the destination took place: a register destination
    still holds its value, and so does any destination when reading does
    not change the memory. *)
Theorem division_by_zero_faults (f : operator.t) (dest src : Operand)
  (rest : list Operand) (v1 : Z) (m1 m2 : Mem) (fuel : nat) self :
  f = operator.floordiv \/ f = operator.mod_ ->
  resolve dest (registers self) (memory self) = (v1, m1) ->
  resolve src (registers self) m1 = (0, m2) ->
  let run := _reduce_op f dest (src :: rest) self in
  let dispatched :=
    execute fuel (mkInstruction (mnemonic f) (dest :: src :: rest) []) self in
  outcome run = Raised ALUDZeroDivisionError /\
  outcome dispatched = Raised ALUDZeroDivisionError /\
  registers (final run) = registers self /\
  registers (final dispatched) = registers self /\
  alu (final run) = alu self /\
  memory (final run) = m2 /\
  memory (final dispatched) = m2 /\
  only_reads (memory self) m2 /\
  (forall r, dest = Register r -> holds dest v1 (final run)) /\
  (pure_reads -> memory (final run) = memory self /\ holds dest v1 (final run)).
Proof.
  intros Hf Hd Hs. cbv zeta.
  rewrite execute_unfold. cbv zeta. rewrite execute_body_reduction.
  rewrite !reduce_op_run. cbv zeta.
  cbn [with_cursor registers memory].
  rewrite Hd. cbn [fst snd]. rewrite Hs. cbn [fst snd].
  assert (Hfault : operator.apply f v1 0 = None) by (destruct Hf; subst f; reflexivity).
  rewrite Hfault. cbn [outcome final].
  assert (Hreads : only_reads (memory self) m2).
  { eapply only_reads_trans.
    - apply (resolve_only_reads dest (registers self)).
    - rewrite Hd. cbn [snd].
      replace m2 with (snd (resolve src (registers self) m1)) by now rewrite Hs.
      apply resolve_only_reads. }
  do 8 (split; [trivial |]). split.
  - intros r ->. apply holds_resolve. cbn in *. congruence.
  - intros Hpure.
    pose proof (resolve_pure dest (registers self) (memory self) Hpure) as Ed.
    pose proof (resolve_pure src (registers self) m1 Hpure) as Es.
    rewrite Hd in Ed. rewrite Hs in Es. cbn in Ed, Es. subst m1 m2.
    split; [reflexivity |].
    apply holds_resolve. cbn [advance with_memory registers memory].
    now rewrite Hd.
Qed.


(** ** Numbers to and from character streams *)

Lemma advance_0 self : advance 0 self = self.
Proof. destruct self as [c cs [t i] a m r]. reflexivity. Qed.

Lemma advance_advance (a b : nat) self :
  advance a (advance b self) = advance (a + b) self.
Proof.
  unfold advance, ticks_of, instructions_of. cbn.
  now rewrite Nat.add_assoc.
Qed.

Lemma ticks_of_advance (n : nat) self : ticks_of (advance n self) = (n + ticks_of self)%nat.
Proof. reflexivity. Qed.

Lemma emitted_0 dest chars self : emitted dest chars 0 self = self.
Proof. reflexivity. Qed.








Lemma chr_valid (c : Z) : 0 <= c < 1114112 -> builtins.chr c = inr [c].
Proof.
  intros Hc. unfold builtins.chr.
  destruct (Z.leb_spec 0 c); [| lia]. destruct (Z.ltb_spec c 1114112); [| lia].
  reflexivity.
Qed.



(** * Further properties *)

(** ** The operand resolver *)

(** X1: reading an operand always returns a value and suspends nowhere; it
    leaves the cursor, the clock, the flags and the registers as they were
    and only reads the memory; when reads do not change the memory it
    leaves the whole state as it was. *)
Theorem get_operand_value_reads_only (operand : Operand) self :
  let run := get_operand_value operand self in
  outcome run = Returned (fst (resolve operand (registers self) (memory self))) /\
  suspended run = [] /\
  current (final run) = current self /\
  current_sub (final run) = current_sub self /\
  clock (final run) = clock self /\
  alu (final run) = alu self /\
  registers (final run) = registers self /\
  only_reads (memory self) (memory (final run)) /\
  (pure_reads -> final run = self).
Proof.
  cbv zeta. rewrite get_operand_value_resolve. cbn [outcome final suspended].
  do 7 (split; [reflexivity |]). split.
  - apply resolve_only_reads.
  - intros Hpure. rewrite resolve_pure by exact Hpure. apply with_memory_same.
Qed.


(** X3: sharing a bus is symmetric and transitive, and an operand shares
    the bus with itself exactly when it is a register or a memory operand:
    constants and labels are on no bus. *)
Theorem same_bus_partial_equivalence (a b c : Operand) :
  _same_bus a b = _same_bus b a /\
  (_same_bus a b = true -> _same_bus b c = true -> _same_bus a c = true) /\
  _same_bus a a = writeable a /\
  (_same_bus a b = true -> writeable a = true /\ writeable b = true).
Proof.
  destruct a, b, c; cbn; repeat split; trivial; discriminate.
Qed.

(** ** INC, DEC, MOV and CMP *)

Lemma i_inc_run (dest : Operand) self :
  i_inc dest self =
  let read := resolve dest (registers self) (memory self) in
  let fetched := advance 1 (with_memory (snd read) self) in
  let written := set_operand_value dest (fst read + 1) fetched in
  mkRun (outcome written) (final written) (fetched :: suspended written).
Proof.
  unfold i_inc. now rewrite bind_get_operand_value, bind_clock_tick, bind_yield.
Qed.

Lemma i_dec_run (dest : Operand) self :
  i_dec dest self =
  let read := resolve dest (registers self) (memory self) in
  let fetched := advance 1 (with_memory (snd read) self) in
  let written := set_operand_value dest (fst read - 1) fetched in
  mkRun (outcome written) (final written) (fetched :: suspended written).
Proof.
  unfold i_dec. now rewrite bind_get_operand_value, bind_clock_tick, bind_yield.
Qed.

Lemma i_mov_run (dest src : Operand) self :
  i_mov dest src self =
  let read := resolve src (registers self) (memory self) in
  let fetched := advance 1 (with_memory (snd read) self) in
  let written := set_operand_value dest (fst read) fetched in
  mkRun (outcome written) (final written) (fetched :: suspended written).
Proof.
  unfold i_mov. now rewrite bind_get_operand_value, bind_clock_tick, bind_yield.
Qed.

Lemma i_cmp_run (var src : Operand) self :
  i_cmp var src self =
  let d := resolve var (registers self) (memory self) in
  let s := resolve src (registers self) (snd d) in
  let contention := if _same_bus var src then 1%nat else 0%nat in
  let waited :=
    if _same_bus var src then [advance 1 (with_memory (snd d) self)] else [] in
  let fetched := advance (S contention) (with_memory (snd s) self) in
  mkRun (Returned tt)
    (with_alu (ALU.mk (fst d - fst s =? 0) (fst d - fst s <? 0)) fetched)
    (waited ++ [fetched]).
Proof.
  unfold i_cmp. rewrite bind_get_operand_value.
  destruct (_same_bus var src).
  - rewrite bind_assoc, bind_clock_tick, bind_yield.
    rewrite bind_get_operand_value, bind_clock_tick, bind_yield, bind_alu_operation.
    reflexivity.
  - rewrite bind_ret.
    rewrite bind_get_operand_value, bind_clock_tick, bind_yield, bind_alu_operation.
    reflexivity.
Qed.

(** Writing to a destination that keeps what is written to it, then
    reading it. *)
Lemma holds_after_write (dest : Operand) (v : Z) self :
  keeps_writes dest ->
  outcome (set_operand_value dest v self) = Returned tt /\
  suspended (set_operand_value dest v self) = [] /\
  holds dest v (final (set_operand_value dest v self)) /\
  ticks_of (final (set_operand_value dest v self)) = ticks_of self.
Proof.
  intros Hk. rewrite set_operand_value_run.
  destruct dest as [c | r | l o | l o off | n c]; try destruct Hk;
    cbn [outcome final suspended]; repeat split.
  - apply holds_resolve. cbn. unfold RegisterController.get. cbn.
    now rewrite String.eqb_refl.
  - apply holds_resolve. cbn. apply Hk.
Qed.

(** X4: on a destination that keeps what is written to it and holds [v],
    INC returns after one cycle and leaves [v + 1], DEC returns after one
    cycle and leaves [v - 1], and each undoes the other: after INC then DEC,
    or DEC then INC, the destination holds [v] again, two cycles later. *)
Theorem inc_and_dec_are_inverse (dest : Operand) (v : Z) self :
  keeps_writes dest ->
  holds dest v self ->
  let inc := i_inc dest self in
  let inc_dec := i_dec dest (final inc) in
  let dec := i_dec dest self in
  let dec_inc := i_inc dest (final dec) in
  outcome inc = Returned tt /\ holds dest (v + 1) (final inc) /\
  outcome dec = Returned tt /\ holds dest (v - 1) (final dec) /\
  outcome inc_dec = Returned tt /\ holds dest v (final inc_dec) /\
  outcome dec_inc = Returned tt /\ holds dest v (final dec_inc) /\
  ticks_of (final inc) = S (ticks_of self) /\
  ticks_of (final inc_dec) = S (S (ticks_of self)) /\
  ticks_of (final dec_inc) = S (S (ticks_of self)).
Proof.
  intros Hk Hv. cbv zeta.
  assert (Hinc : forall st w, holds dest w st ->
            outcome (i_inc dest st) = Returned tt /\
            holds dest (w + 1) (final (i_inc dest st)) /\
            ticks_of (final (i_inc dest st)) = S (ticks_of st)).
  { intros st w Hw. apply holds_resolve in Hw. rewrite i_inc_run. cbv zeta.
    cbn [outcome final]. rewrite Hw.
    destruct (holds_after_write dest (w + 1)
                (advance 1 (with_memory (snd (resolve dest (registers st) (memory st))) st))
                Hk) as (Ho & _ & Hh & Ht).
    now rewrite Ho, Ht. }
  assert (Hdec : forall st w, holds dest w st ->
            outcome (i_dec dest st) = Returned tt /\
            holds dest (w - 1) (final (i_dec dest st)) /\
            ticks_of (final (i_dec dest st)) = S (ticks_of st)).
  { intros st w Hw. apply holds_resolve in Hw. rewrite i_dec_run. cbv zeta.
    cbn [outcome final]. rewrite Hw.
    destruct (holds_after_write dest (w - 1)
                (advance 1 (with_memory (snd (resolve dest (registers st) (memory st))) st))
                Hk) as (Ho & _ & Hh & Ht).
    now rewrite Ho, Ht. }
  destruct (Hinc self v Hv) as (Hi1 & Hi2 & Hi3).
  destruct (Hdec self v Hv) as (Hd1 & Hd2 & Hd3).
  destruct (Hdec _ _ Hi2) as (Hid1 & Hid2 & Hid3).
  destruct (Hinc _ _ Hd2) as (Hdi1 & Hdi2 & Hdi3).
  replace (v + 1 - 1) with v in Hid2 by lia.
  replace (v - 1 + 1) with v in Hdi2 by lia.
  repeat split; try assumption; congruence.
Qed.


Lemma cmp_flags (a b : Z) : (a - b =? 0) = (a =? b) /\ (a - b <? 0) = (a <? b).
Proof.
  split.
  - destruct (Z.eqb_spec (a - b) 0), (Z.eqb_spec a b); trivial; lia.
  - destruct (Z.ltb_spec (a - b) 0), (Z.ltb_spec a b); trivial; lia.
Qed.

(** X6: CMP always returns and writes nothing: the registers are as before
    and the memory has only been read; it leaves flag Z set iff the two
    values are equal and flag N set iff the first is less than the second,
    after one cycle, two when both operands are on the same bus. *)
Theorem cmp_sets_flags_only (var src : Operand) self :
  let d := resolve var (registers self) (memory self) in
  let s := resolve src (registers self) (snd d) in
  let run := i_cmp var src self in
  outcome run = Returned tt /\
  registers (final run) = registers self /\
  memory (final run) = snd s /\
  only_reads (memory self) (memory (final run)) /\
  ALU.get_flag Flag.Z (alu (final run)) = (fst d =? fst s) /\
  ALU.get_flag Flag.N (alu (final run)) = (fst d <? fst s) /\
  ticks_of (final run) =
    (ticks_of self + if _same_bus var src then 2 else 1)%nat /\
  List.length (suspended run) = (if _same_bus var src then 2 else 1)%nat.
Proof.
  cbv zeta. rewrite i_cmp_run. cbv zeta. cbn [outcome final suspended].
  split; [reflexivity |]. split; [reflexivity |]. split; [reflexivity |].
  split.
  { cbn [memory with_alu advance with_memory].
    eapply only_reads_trans; apply resolve_only_reads. }
  split; [apply cmp_flags |]. split; [apply cmp_flags |].
  destruct (_same_bus var src); (split; [| reflexivity]);
    change (ticks_of (with_alu ?a ?st)) with (ticks_of st);
    rewrite ticks_of_advance;
    change (ticks_of (with_memory _ self)) with (ticks_of self); lia.
Qed.

(** What [execute] does with a jump to a label. *)
Lemma execute_jump (j : Jump) (label_name : string) (target : Z) (fuel : nat) self :
  let instruction := mkInstruction (jump_mnemonic j) [Label label_name target] [] in
  let landed := if jump_condition j (alu self) then target else pointer_of self + 1 in
  let done :=
    mkController (Some instruction) None
      (ClockGenerator.inst (ClockGenerator.tick (clock self))) (alu self) (memory self)
      (RegisterController.set_instruction_pointer landed (registers self)) in
  execute fuel instruction self = mkRun (Returned tt) done [done].
Proof.
  cbv zeta. rewrite execute_unfold.
  destruct self as [c cs clk [z n] m regs].
  destruct j, z, n; cbn; unfold pointer_of, RegisterController.set_instruction_pointer;
    cbn; rewrite ?Z.sub_add; reflexivity.
Qed.

Lemma taken_after_cmp_flags (j : Jump) (a b : Z) :
  jump_condition j (ALU.mk (a - b =? 0) (a - b <? 0)) = taken_after_cmp j a b.
Proof.
  destruct (cmp_flags a b) as [-> ->].
  destruct j; cbn; trivial;
    destruct (Z.eqb_spec a b), (Z.ltb_spec a b), (Z.leb_spec a b), (Z.leb_spec b a);
    cbn; trivial; lia.
Qed.

(** X7: a CMP followed by a jump to a label, both run through [execute]:
    both return and count as two instructions, and the pointer ends at the
    label's value when the jump is taken, two past where it started
    otherwise.  With [a] and [b] the values compared, JE is taken iff
    [a = b], JNE iff [a <> b], JL iff [a < b], JLE iff [a <= b], and JG as
    well as JGE iff [a >= b]: JG only asks for N to be clear, so it is taken
    on equality too. *)
Theorem compare_then_jump (j : Jump) (var src : Operand) (label_name : string)
  (target : Z) (fuel : nat) self :
  let a := fst (resolve var (registers self) (memory self)) in
  let b :=
    fst (resolve src (registers self)
           (snd (resolve var (registers self) (memory self)))) in
  let compared := execute fuel (mkInstruction "cmp" [var; src] []) self in
  let jumped :=
    execute fuel (mkInstruction (jump_mnemonic j) [Label label_name target] [])
      (final compared) in
  outcome compared = Returned tt /\
  outcome jumped = Returned tt /\
  pointer_of (final jumped) =
    (if taken_after_cmp j a b then target else pointer_of self + 2) /\
  instructions_of (final jumped) = S (S (instructions_of self)).
Proof.
  cbv zeta. rewrite execute_jump. cbv zeta. cbn [outcome final].
  rewrite execute_unfold. cbv zeta.
  change (execute_body fuel (mkInstruction "cmp" [var; src] [])) with (i_cmp var src).
  rewrite i_cmp_run. cbv zeta. cbn [outcome final].
  split; [reflexivity |]. split; [reflexivity |].
  cbn [alu with_alu]. rewrite taken_after_cmp_flags.
  split; [| reflexivity].
  cbn [with_cursor registers memory].
  destruct (taken_after_cmp j _ _); unfold pointer_of; cbn; lia.
Qed.

(** ** Dispatch errors *)



(** X9: a registered mnemonic called with a number of operands that its
    handler's signature does not accept raises [TypeError] with the state
    untouched; a reduction called with its destination alone is accepted by
    the signature and then raises [IndexError], before the destination is
    read. *)
Theorem wrong_operand_count_raises (key : string) (ops : list Operand)
  (f : operator.t) (dest : Operand) (fuel : nat) self :
  In key mnemonics ->
  accepts key (List.length ops) = false ->
  __execute fuel (mkInstruction key ops []) self = mkRun (Raised TypeError) self [] /\
  accepts (mnemonic f) 1 = true /\
  __execute fuel (mkInstruction (mnemonic f) [dest] []) self =
    mkRun (Raised IndexError) self [].
Proof.
  intros Hin Hacc. split; [| split; destruct f; reflexivity].
  unfold mnemonics in Hin. cbn [In] in Hin.
  repeat (destruct Hin as [<- | Hin]); try contradiction;
    destruct ops as [| a [| b [| c rest]]]; cbn in Hacc; try discriminate Hacc;
    reflexivity.
Qed.

(** ** Destinations that cannot be written *)


(** X10: a reduction whose destination is a constant or a label is only
    refused at the write: when the function is defined on the operands it
    raises [OperandIsNotWriteable] with the destination's value after its
    two cycles, and the flags have already been set from the result. *)
Theorem reduction_on_constant_sets_flags_then_faults (f : operator.t)
  (dest src : Operand) (rest : list Operand) (result : Z) self :
  writeable dest = false ->
  let d := fst (resolve dest (registers self) (memory self)) in
  let s := resolve src (registers self) (memory self) in
  operator.apply f d (fst s) = Some result ->
  let run := _reduce_op f dest (src :: rest) self in
  outcome run = Raised (OperandIsNotWriteable d) /\
  alu (final run) = ALU.mk (result =? 0) (result <? 0) /\
  ticks_of (final run) = S (S (ticks_of self)) /\
  List.length (suspended run) = 2%nat /\
  registers (final run) = registers self /\
  memory (final run) = snd s.
Proof.
  intros Hw. cbv zeta. intros Hf. rewrite reduce_op_run. cbv zeta.
  destruct dest as [v | r | l v | l v off | n v]; try discriminate Hw;
    cbn [resolve fst snd] in *; rewrite Hf; cbn; repeat split.
Qed.


(** ** LDN at its edges *)

Lemma ldn_loop_stable (src : Operand) (c : Z) regs :
  (forall m : Mem, resolve src regs m = (c, m)) ->
  c <> NULL_TERM ->
  0 <= c < 1114112 ->
  forall (fuel : nat) (result : list Z) self,
    registers self = regs ->
    outcome (ldn_loop fuel src result self) = Pending /\
    final (ldn_loop fuel src result self) = advance fuel self /\
    List.length (suspended (ldn_loop fuel src result self)) = fuel.
Proof.
  intros Hstable Hc Hvalid.
  induction fuel as [| fuel IH]; intros result self Hregs.
  - cbn. now rewrite advance_0.
  - rewrite ldn_loop_step. cbv zeta. rewrite Hregs, Hstable. cbn [fst snd].
    apply Z.eqb_neq in Hc. rewrite Hc, (chr_valid c Hvalid), with_memory_same.
    cbn [outcome final suspended List.length].
    destruct (IH (result ++ [c]) (advance 1 self) Hregs) as (Ho & Hf & Hl).
    rewrite Ho, Hf, Hl, advance_advance, Nat.add_1_r. repeat split.
Qed.

(** X12: LDN from a source that always resolves to the same character,
    other than the terminator, and leaves the memory alone (a constant, a
    label, a register) never ends: whatever the bound on iterations, the
    loop is still running when it is reached, has taken one cycle and one
    suspension point per iteration, and has written nothing. *)
Theorem ldn_on_stable_source_never_ends (dest src : Operand) (c : Z) (fuel : nat) self :
  (forall m : Mem, resolve src (registers self) m = (c, m)) ->
  c <> NULL_TERM ->
  0 <= c < 1114112 ->
  let run := i_ldn fuel dest src self in
  outcome run = Pending /\
  final run = advance fuel self /\
  List.length (suspended run) = fuel /\
  outcome (execute fuel (mkInstruction "ldn" [dest; src] []) self) = Pending.
Proof.
  intros Hstable Hc Hvalid. cbv zeta.
  destruct (ldn_loop_stable src c (registers self) Hstable Hc Hvalid fuel [] self eq_refl)
    as (Ho & Hf & Hl).
  assert (Hrun : i_ldn fuel dest src self =
                 mkRun Pending (advance fuel self) (suspended (ldn_loop fuel src [] self))).
  { unfold i_ldn, bind. now rewrite Ho, Hf. }
  rewrite Hrun. cbn [outcome final suspended].
  do 3 (split; [trivial |]).
  rewrite execute_unfold. cbv zeta.
  change (execute_body fuel (mkInstruction "ldn" [dest; src] []))
    with (i_ldn fuel dest src).
  destruct (ldn_loop_stable src c (registers self) Hstable Hc Hvalid fuel []
              (with_cursor (Some (mkInstruction "ldn" [dest; src] [])) None self) eq_refl)
    as (Ho' & _ & _).
  unfold i_ldn, bind. now rewrite Ho'.
Qed.





(** ** What the handlers leave alone *)

Lemma preserved_ret R {A : Type} (a : A) : frame R -> preserved R (ret a).
Proof. intros (Hrefl & _) self. apply Hrefl. Qed.

Lemma preserved_raise R {A : Type} (e : Exception) :
  frame R -> preserved R (raise (A:=A) e).
Proof. intros (Hrefl & _) self. apply Hrefl. Qed.

Lemma preserved_yield R : frame R -> preserved R yield.
Proof. intros (Hrefl & _) self. apply Hrefl. Qed.

Lemma preserved_lift R {A : Type} (r : Exception + A) : frame R -> preserved R (lift r).
Proof. destruct r; [apply preserved_raise | apply preserved_ret]. Qed.

Lemma preserved_bind R {A B : Type} (m : Gen A) (f : A -> Gen B) :
  frame R -> preserved R m -> (forall a, preserved R (f a)) -> preserved R (bind m f).
Proof.
  intros (_ & Htrans & _) Hm Hf self. unfold bind.
  specialize (Hm self).
  destruct (outcome (m self)) as [a | e |]; cbn [final]; trivial.
  eapply Htrans; [exact Hm | apply Hf].
Qed.

(** A step that changes nothing but the clock, the flags, the memory or the
    register file. *)
Lemma frame_machine_step R self c a m file :
  frame R ->
  R self
    (mkController (current self) (current_sub self) c a m
       (RegisterController.mk file (pointer_of self))).
Proof. intros (_ & _ & Hmachine). apply Hmachine. Qed.

Lemma preserved_clock_tick R : frame R -> preserved R clock_tick.
Proof.
  intros HR [c cs clk a m [file ip]].
  apply (frame_machine_step R (mkController c cs clk a m (RegisterController.mk file ip))), HR.
Qed.

Lemma preserved_alu_get_flag R flag : frame R -> preserved R (alu_get_flag flag).
Proof. intros (Hrefl & _) self. apply Hrefl. Qed.

Lemma preserved_alu_operation R f a b : frame R -> preserved R (alu_operation f a b).
Proof.
  intros HR [c cs clk al m [file ip]]. unfold alu_operation. cbn [alu].
  destruct (ALU.operation f a b al) as [e | [result alu']]; cbn [final].
  - apply HR.
  - apply (frame_machine_step R (mkController c cs clk al m (RegisterController.mk file ip))),
      HR.
Qed.

Lemma preserved_with_memory R (m' : Mem) self : frame R -> R self (with_memory m' self).
Proof.
  intros HR. destruct self as [c cs clk a m [file ip]].
  apply (frame_machine_step R (mkController c cs clk a m (RegisterController.mk file ip))), HR.
Qed.

Lemma preserved_get_operand_value R operand :
  frame R -> preserved R (get_operand_value operand).
Proof.
  intros HR self. rewrite get_operand_value_resolve. cbn [final].
  now apply preserved_with_memory.
Qed.

Lemma preserved_set_operand_value R operand value :
  frame R -> preserved R (set_operand_value operand value).
Proof.
  intros HR self. rewrite set_operand_value_run.
  destruct operand as [v | r | l v | l v off | n v]; cbn [final];
    first [now apply preserved_with_memory | apply HR].
Qed.

Lemma preserved_for R {A : Type} (items : list A) (body : A -> Gen unit) :
  frame R -> (forall item, preserved R (body item)) -> preserved R (for_ items body).
Proof.
  intros HR Hbody. induction items as [| item rest IH]; cbn [for_].
  - now apply preserved_ret.
  - apply preserved_bind; [exact HR | apply Hbody | intros _; exact IH].
Qed.

Lemma preserved_ldn_loop R (fuel : nat) src result :
  frame R -> preserved R (ldn_loop fuel src result).
Proof.
  intros HR. revert result. induction fuel as [| fuel IH]; intros result; cbn [ldn_loop].
  - intros self. apply HR.
  - apply preserved_bind; [exact HR | now apply preserved_get_operand_value |].
    intros digit. destruct (digit =? NULL_TERM); [now apply preserved_ret |].
    apply preserved_bind; [exact HR | now apply preserved_lift |].
    intros c. apply preserved_bind; [exact HR | now apply preserved_clock_tick |].
    intros _. apply preserved_bind; [exact HR | now apply preserved_yield |].
    intros _. apply IH.
Qed.

Ltac preserved_steps HR :=
  repeat first
    [ progress intros
    | apply preserved_ret; exact HR
    | apply preserved_raise; exact HR
    | apply preserved_yield; exact HR
    | apply preserved_lift; exact HR
    | apply preserved_clock_tick; exact HR
    | apply preserved_alu_get_flag; exact HR
    | apply preserved_alu_operation; exact HR
    | apply preserved_get_operand_value; exact HR
    | apply preserved_set_operand_value; exact HR
    | apply preserved_ldn_loop; exact HR
    | apply preserved_bind; [exact HR | |]
    | apply preserved_for; [exact HR |]
    | match goal with
      | |- preserved _ (if ?c then _ else _) => destruct c
      | |- preserved _ (match ?x with _ => _ end) => destruct x
      end ].

Lemma preserved_jump_to R label :
  frame R -> ignores_pointer R -> preserved R (_jump_to label).
Proof.
  intros HR Hip. unfold _jump_to.
  apply preserved_bind; [exact HR | now apply preserved_lift |].
  intros value self. apply Hip.
Qed.

Lemma preserved_jmp_if R label condition :
  frame R -> ignores_pointer R -> preserved R (_jmp_if label condition).
Proof.
  intros HR Hip. unfold _jmp_if.
  destruct condition; [now apply preserved_jump_to | now apply preserved_ret].
Qed.

(** Every handler other than a jump keeps a relation that does not look at
    the machine; the jumps keep it as well when it does not look at the
    instruction pointer either. *)
Lemma preserved_handler R (fuel : nat) (key : string) handler args :
  frame R ->
  is_jump key = false \/ ignores_pointer R ->
  get_all fuel key = Some handler ->
  preserved R (handler args).
Proof.
  intros HR Hjump. unfold get_all.
  repeat match goal with
         | |- (if String.eqb key ?k then _ else _) = Some _ -> _ =>
             destruct (String.eqb_spec key k) as [-> |]
         end;
    intros E; try discriminate; injection E as <-;
    unfold no_operand, one_operand, two_operands, star_operands,
      i_add, i_sub, i_mul, i_div, i_mod, i_xor, i_and, i_or, _reduce_op,
      i_dec, i_inc, i_mov, i_movn, i_ldn, i_cmp, i_hlt;
    try (preserved_steps HR; fail).
  all: destruct Hjump as [Hjump | Hip]; [discriminate Hjump |].
  all: destruct args as [| label [| b rest]]; try (now apply preserved_raise).
  all: unfold i_jmp, i_je, i_jne, i_jl, i_jg, i_jle, i_jge.
  all: repeat (apply preserved_bind;
               [exact HR | now apply preserved_alu_get_flag | intros ?]).
  all: first [now apply preserved_jmp_if | now apply preserved_jump_to].
Qed.

Lemma preserved_execute_one R (fuel : nat) (instruction : Instruction) :
  frame R ->
  is_jump (name instruction) = false \/ ignores_pointer R ->
  preserved R (__execute fuel instruction).
Proof.
  intros HR Hjump. unfold __execute.
  destruct (get_all fuel (name instruction)) as [handler |] eqn:E.
  - eapply preserved_handler; eassumption.
  - now apply preserved_raise.
Qed.

Lemma frame_same_pointer : frame (fun self st => pointer_of self = pointer_of st).
Proof.
  split; [reflexivity |]. split; [intros s1 s2 s3; congruence |].
  intros self c a m file. reflexivity.
Qed.

Lemma frame_same_current : frame (fun self st => current self = current st).
Proof.
  split; [reflexivity |]. split; [intros s1 s2 s3; congruence |].
  intros self c a m file. reflexivity.
Qed.

Lemma frame_same_current_sub : frame (fun self st => current_sub self = current_sub st).
Proof.
  split; [reflexivity |]. split; [intros s1 s2 s3; congruence |].
  intros self c a m file. reflexivity.
Qed.

Lemma execute_body_keeps_pointer (fuel : nat) (instruction : Instruction) self :
  sequential instruction = true ->
  pointer_of (final (execute_body fuel instruction self)) = pointer_of self.
Proof.
  intros Hseq. symmetry. revert self.
  change (preserved (fun self st => pointer_of self = pointer_of st)
            (execute_body fuel instruction)).
  unfold sequential in Hseq. unfold execute_body.
  destruct (sub instruction) as [| first others].
  - apply preserved_execute_one; [apply frame_same_pointer |].
    left. now apply negb_true_iff.
  - rewrite forallb_forall in Hseq.
    assert (Hall : forall item, In item (first :: others) ->
              preserved (fun self st => pointer_of self = pointer_of st)
                (set_current_sub (Some item) ;; __execute fuel item)).
    { intros item Hin. apply preserved_bind; [apply frame_same_pointer | |].
      - intros self. reflexivity.
      - intros _. apply preserved_execute_one; [apply frame_same_pointer |].
        left. apply negb_true_iff. now apply Hseq. }
    clear Hseq. induction (first :: others) as [| item rest IH]; cbn [for_].
    + apply preserved_ret, frame_same_pointer.
    + apply preserved_bind; [apply frame_same_pointer | apply Hall; now left |].
      intros _. apply IH. intros item' Hin. apply Hall. now right.
Qed.

(** X15: only the jumps move the instruction pointer.  For an instruction
    none of whose handlers is a jump (its own, or those of its
    sub-instructions when it has some), [execute] ends with the pointer one
    past where it started when it returns, and where it started when a
    handler raised or the run was cut short. *)
Theorem only_jumps_move_pointer (fuel : nat) (instruction : Instruction) self :
  sequential instruction = true ->
  let run := execute fuel instruction self in
  pointer_of (final run) =
    match outcome run with
    | Returned _ => pointer_of self + 1
    | Raised _ | Pending => pointer_of self
    end.
Proof.
  intros Hseq. cbv zeta. rewrite execute_unfold. cbv zeta.
  pose proof (execute_body_keeps_pointer fuel instruction
                (with_cursor (Some instruction) None self) Hseq) as Hbody.
  destruct (outcome (execute_body fuel instruction _)) as [[] | e |];
    cbn [outcome final]; try exact Hbody.
  unfold pointer_of in *. cbn. now rewrite Hbody.
Qed.

(** While the sub-instructions run, the sub-instruction cursor is on the one
    that runs; at the end it is on the last that was started. *)
Lemma for_marks_last (step : Instruction -> Gen unit) (subs : list Instruction)
  (d : Instruction) self :
  (forall item st, current_sub (final (step item st)) = Some item) ->
  subs <> [] ->
  (exists item, In item subs /\ current_sub (final (for_ subs step self)) = Some item) /\
  (outcome (for_ subs step self) = Returned tt ->
   current_sub (final (for_ subs step self)) = Some (last subs d)).
Proof.
  intros Hstep. revert self. induction subs as [| item rest IH]; intros self Hne;
    [congruence |].
  cbn [for_]. unfold bind. specialize (Hstep item self).
  destruct (outcome (step item self)) as [[] | e |]; cbn [outcome final].
  - destruct rest as [| item' rest'].
    + cbn [for_ ret outcome final last]. split; [| intros _; exact Hstep].
      exists item. split; [now left | exact Hstep].
    + destruct (IH (final (step item self)) ltac:(discriminate))
        as ((it & Hin & Hcur) & Hlast).
      split; [exists it; split; [now right | exact Hcur] |].
      intros Hret. change (last (item :: item' :: rest') d) with (last (item' :: rest') d).
      now apply Hlast.
  - split; [| discriminate]. exists item. split; [now left | exact Hstep].
  - split; [| discriminate]. exists item. split; [now left | exact Hstep].
Qed.

Lemma sub_step_marks (fuel : nat) (item : Instruction) self :
  current_sub (final ((set_current_sub (Some item) ;; __execute fuel item) self)) =
  Some item.
Proof.
  unfold bind at 1. cbn [set_current_sub outcome final].
  set (st := mkController _ _ _ _ _ _).
  pose proof (preserved_execute_one (fun self st => current_sub self = current_sub st)
                fuel item frame_same_current_sub
                (or_intror (fun s v => eq_refl)) st) as Hkeep.
  cbn beta in Hkeep. now rewrite <- Hkeep.
Qed.

(** X16: the cursor after [execute], however it ended: [current] is the
    instruction; without sub-instructions [current_sub] is cleared; with
    sub-instructions [current_sub] is one of them, and the last of them
    when [execute] returned.  No handler touches either. *)
Theorem cursor_after_execute (fuel : nat) (instruction : Instruction) self :
  let run := execute fuel instruction self in
  current (final run) = Some instruction /\
  match sub instruction with
  | [] => current_sub (final run) = None
  | subs =>
      (exists item, In item subs /\ current_sub (final run) = Some item) /\
      (outcome run = Returned tt ->
       current_sub (final run) = Some (last subs instruction))
  end.
Proof.
  cbv zeta. rewrite execute_unfold. cbv zeta.
  set (entered := with_cursor (Some instruction) None self).
  assert (Hcurrent : current (final (execute_body fuel instruction entered)) =
                     Some instruction).
  { assert (Hkeep : preserved (fun self st => current self = current st)
                      (execute_body fuel instruction)).
    { unfold execute_body. destruct (sub instruction) as [| first others].
      - apply preserved_execute_one; [apply frame_same_current |].
        right. intros s v. reflexivity.
      - apply preserved_for; [apply frame_same_current |]. intros item.
        apply preserved_bind; [apply frame_same_current | intros s; reflexivity |].
        intros _. apply preserved_execute_one; [apply frame_same_current |].
        right. intros s v. reflexivity. }
    now rewrite <- (Hkeep entered). }
  split.
  { destruct (outcome (execute_body fuel instruction entered)) as [[] | e |];
      cbn [final]; exact Hcurrent. }
  unfold execute_body in *.
  destruct (sub instruction) as [| first others] eqn:Esub.
  - pose proof (preserved_execute_one (fun self st => current_sub self = current_sub st)
                  fuel instruction frame_same_current_sub
                  (or_intror (fun s v => eq_refl)) entered) as Hkeep.
    cbn beta in Hkeep.
    destruct (outcome (__execute fuel instruction entered)) as [[] | e |];
      cbn [final current_sub]; now rewrite <- Hkeep.
  - destruct (for_marks_last
                (fun sub_instruction =>
                   set_current_sub (Some sub_instruction) ;; __execute fuel sub_instruction)
                (first :: others) instruction entered
                (sub_step_marks fuel) ltac:(discriminate)) as (Hin & Hlast).
    destruct (outcome (for_ (first :: others) _ entered)) as [[] | e |];
      cbn [outcome final current_sub].
    + split; [exact Hin | intros _; now apply Hlast].
    + split; [exact Hin | discriminate].
    + split; [exact Hin | discriminate].
Qed.

(** ** The cursor is never read *)

Ltac machine_step :=
  let Hc := fresh "Hc" in
  let Ha := fresh "Ha" in
  let Hm := fresh "Hm" in
  let Hr := fresh "Hr" in
  intros ? ? (Hc & Ha & Hm & Hr); cbn;
  rewrite ?Hc, ?Ha, ?Hm, ?Hr;
  repeat split; try reflexivity; repeat constructor; trivial.

Lemma alike_ret {A : Type} (a : A) : alike (ret a) (ret a).
Proof. machine_step. Qed.

Lemma alike_raise {A : Type} (e : Exception) : alike (raise (A:=A) e) (raise e).
Proof. machine_step. Qed.

Lemma alike_yield : alike yield yield.
Proof. machine_step. Qed.

Lemma alike_lift {A : Type} (r : Exception + A) : alike (lift r) (lift r).
Proof. destruct r; [apply alike_raise | apply alike_ret]. Qed.

Lemma alike_bind {A B : Type} (m m' : Gen A) (f f' : A -> Gen B) :
  alike m m' -> (forall a, alike (f a) (f' a)) -> alike (bind m f) (bind m' f').
Proof.
  intros Hm Hf self st Hsame. unfold bind.
  destruct (Hm self st Hsame) as (Ho & Hfin & Hsus). rewrite <- Ho.
  destruct (outcome (m self)) as [a | e |]; cbn [outcome final suspended];
    try (split; [reflexivity | split; [exact Hfin | exact Hsus]]).
  destruct (Hf a _ _ Hfin) as (Ho' & Hfin' & Hsus').
  split; [exact Ho' | split; [exact Hfin' | now apply Forall2_app]].
Qed.

Lemma alike_clock_tick : alike clock_tick clock_tick.
Proof. machine_step. Qed.

Lemma alike_clock_inst : alike clock_inst clock_inst.
Proof. machine_step. Qed.

Lemma alike_alu_get_flag flag : alike (alu_get_flag flag) (alu_get_flag flag).
Proof. machine_step. Qed.

Lemma alike_alu_operation f a b : alike (alu_operation f a b) (alu_operation f a b).
Proof.
  intros self st (Hc & Ha & Hm & Hr). unfold alu_operation. rewrite <- Ha.
  destruct (ALU.operation f a b (alu self)) as [e | [result alu']]; cbn;
    repeat split; trivial; constructor.
Qed.

Lemma alike_get_pointer :
  alike registers_get_instruction_pointer registers_get_instruction_pointer.
Proof. machine_step. Qed.

Lemma alike_set_pointer v :
  alike (registers_set_instruction_pointer v) (registers_set_instruction_pointer v).
Proof. machine_step. Qed.

Lemma alike_set_current i j : alike (set_current i) (set_current j).
Proof. machine_step. Qed.

Lemma alike_set_current_sub i j : alike (set_current_sub i) (set_current_sub j).
Proof. machine_step. Qed.

Lemma alike_get_operand_value operand :
  alike (get_operand_value operand) (get_operand_value operand).
Proof.
  intros self st (Hc & Ha & Hm & Hr). rewrite !get_operand_value_resolve, Hr, Hm.
  cbn. repeat split; trivial; constructor.
Qed.

Lemma alike_set_operand_value operand value :
  alike (set_operand_value operand value) (set_operand_value operand value).
Proof.
  intros self st (Hc & Ha & Hm & Hr). rewrite !set_operand_value_run, Hr, Hm.
  destruct operand as [v | r | l v | l v off | n v]; cbn;
    repeat split; trivial; constructor.
Qed.

Lemma alike_for {A : Type} (items items' : list A) (body body' : A -> Gen unit) :
  Forall2 (fun item item' => alike (body item) (body' item')) items items' ->
  alike (for_ items body) (for_ items' body').
Proof.
  induction 1 as [| item item' rest rest' Hitem _ IH]; cbn [for_].
  - apply alike_ret.
  - apply alike_bind; [exact Hitem | intros _; exact IH].
Qed.

Lemma cursor_blind_for {A : Type} (items : list A) (body : A -> Gen unit) :
  (forall item, cursor_blind (body item)) -> cursor_blind (for_ items body).
Proof.
  intros Hbody. apply alike_for.
  induction items as [| item rest IH]; constructor; [apply Hbody | exact IH].
Qed.

Lemma alike_ldn_loop (fuel : nat) src result :
  alike (ldn_loop fuel src result) (ldn_loop fuel src result).
Proof.
  revert result. induction fuel as [| fuel IH]; intros result; cbn [ldn_loop].
  - machine_step.
  - apply alike_bind; [apply alike_get_operand_value |].
    intros digit. destruct (digit =? NULL_TERM); [apply alike_ret |].
    apply alike_bind; [apply alike_lift |].
    intros c. apply alike_bind; [apply alike_clock_tick |].
    intros _. apply alike_bind; [apply alike_yield |].
    intros _. apply IH.
Qed.

Ltac alike_steps :=
  repeat first
    [ progress intros
    | apply alike_ret
    | apply alike_raise
    | apply alike_yield
    | apply alike_lift
    | apply alike_clock_tick
    | apply alike_alu_get_flag
    | apply alike_alu_operation
    | apply alike_set_pointer
    | apply alike_get_operand_value
    | apply alike_set_operand_value
    | apply alike_ldn_loop
    | apply alike_bind
    | apply cursor_blind_for
    | match goal with
      | |- alike (if ?c then _ else _) _ => destruct c
      | |- alike (match ?x with _ => _ end) _ => destruct x
      end ].

(** No handler reads the cursor. *)
Lemma cursor_blind_handler (fuel : nat) (key : string) handler args :
  get_all fuel key = Some handler -> cursor_blind (handler args).
Proof.
  unfold get_all, cursor_blind.
  repeat match goal with
         | |- (if ?c then _ else _) = Some _ -> _ => destruct c
         end;
    intros E; try discriminate; injection E as <-;
    unfold no_operand, one_operand, two_operands, star_operands,
      i_add, i_sub, i_mul, i_div, i_mod, i_xor, i_and, i_or, _reduce_op,
      i_dec, i_inc, i_mov, i_movn, i_ldn, i_cmp, i_hlt,
      i_jmp, i_je, i_jne, i_jl, i_jg, i_jle, i_jge, _jmp_if, _jump_to;
    alike_steps; unfold cursor_blind; alike_steps.
Qed.

Lemma alike_execute_one (fuel : nat) (a b : Instruction) :
  same_call a b -> alike (__execute fuel a) (__execute fuel b).
Proof.
  intros (Hname & Hops). unfold __execute. rewrite <- Hname, <- Hops.
  destruct (get_all fuel (name a)) as [handler |] eqn:E.
  - eapply cursor_blind_handler, E.
  - apply alike_raise.
Qed.

(** X17: [execute] never reads the cursor, and of an instruction record it
    uses the name and the operands only, or the sub-instructions' names and
    operands when there are some.  Two records that stand for the same
    work, run from states that differ in the cursor only, end the same way,
    with the same clock, flags, memory and registers at the end and at
    every suspension point.  So a composite instruction is a pure
    container (its own name, even an unregistered one, and its operands are
    never used), the sub-instructions of a sub-instruction are not run,
    and what an earlier instruction left in the cursor has no effect. *)
Theorem execute_uses_calls_only (fuel : nat) (a b : Instruction) self st :
  same_work a b ->
  same_machine self st ->
  outcome (execute fuel a self) = outcome (execute fuel b st) /\
  same_machine (final (execute fuel a self)) (final (execute fuel b st)) /\
  Forall2 same_machine (suspended (execute fuel a self)) (suspended (execute fuel b st)).
Proof.
  intros Hwork. revert self st.
  change (alike (execute fuel a) (execute fuel b)).
  unfold execute.
  apply alike_bind; [apply alike_set_current |]. intros _.
  apply alike_bind; [apply alike_set_current_sub |]. intros _.
  apply alike_bind.
  - unfold execute_body, same_work in *.
    destruct (sub a) as [| a1 others], (sub b) as [| b1 others']; try contradiction.
    + now apply alike_execute_one.
    + apply alike_for.
      eapply Forall2_impl; [| exact Hwork]. cbn beta. intros x y Hcall.
      apply alike_bind; [apply alike_set_current_sub |].
      intros _. now apply alike_execute_one.
  - intros _. apply alike_bind; [apply alike_get_pointer |]. intros ip.
    apply alike_bind; [apply alike_set_pointer |]. intros _.
    apply alike_bind; [apply alike_clock_tick |]. intros _.
    apply alike_bind; [apply alike_clock_inst |]. intros _.
    apply alike_yield.
Qed.

(** ** Flags and registers *)

(** X18: INC, DEC and MOV never touch the flags, whatever their operands
    and whether the write succeeds or not: a conditional jump placed after
    them still tests the last reduction or CMP. *)
Theorem inc_dec_mov_leave_flags (dest src : Operand) self :
  alu (final (i_inc dest self)) = alu self /\
  alu (final (i_dec dest self)) = alu self /\
  alu (final (i_mov dest src self)) = alu self /\
  (forall j : Jump,
     jump_condition j (alu (final (i_dec dest self))) = jump_condition j (alu self)).
Proof.
  assert (Hset : forall value st, alu (final (set_operand_value dest value st)) = alu st).
  { intros value st. rewrite set_operand_value_run. destruct dest; reflexivity. }
  assert (Hdec : alu (final (i_dec dest self)) = alu self).
  { rewrite i_dec_run. cbv zeta. cbn [final]. now rewrite Hset. }
  split; [rewrite i_inc_run; cbv zeta; cbn [final]; now rewrite Hset |].
  split; [exact Hdec |].
  split; [rewrite i_mov_run; cbv zeta; cbn [final]; now rewrite Hset |].
  intros j. now rewrite Hdec.
Qed.

(** X19: a reduction of a register with itself reads the register twice,
    on the same bus, so it takes three cycles; SUB and XOR leave 0 in the
    register with Z set and N clear, AND and OR leave the register's value
    with Z and N telling whether it is zero or negative. *)
Theorem reduction_of_register_with_itself (f g : operator.t) (r : string) self :
  f = operator.sub \/ f = operator.xor ->
  g = operator.and_ \/ g = operator.or_ ->
  let v := RegisterController.get r (registers self) in
  let cleared := _reduce_op f (Register r) [Register r] self in
  let kept := _reduce_op g (Register r) [Register r] self in
  outcome cleared = Returned tt /\
  holds (Register r) 0 (final cleared) /\
  alu (final cleared) = ALU.mk true false /\
  ticks_of (final cleared) = S (S (S (ticks_of self))) /\
  outcome kept = Returned tt /\
  holds (Register r) v (final kept) /\
  alu (final kept) = ALU.mk (v =? 0) (v <? 0) /\
  ticks_of (final kept) = S (S (S (ticks_of self))).
Proof.
  intros Hf Hg. cbv zeta. rewrite !reduce_op_run. cbv zeta.
  cbn [resolve fst snd _same_bus andb orb].
  assert (Ef : operator.apply f (RegisterController.get r (registers self))
                 (RegisterController.get r (registers self)) = Some 0).
  { destruct Hf; subst f; cbn [operator.apply]; f_equal;
      [apply Z.sub_diag | apply Z.lxor_nilpotent]. }
  assert (Eg : operator.apply g (RegisterController.get r (registers self))
                 (RegisterController.get r (registers self)) =
               Some (RegisterController.get r (registers self))).
  { destruct Hg; subst g; cbn [operator.apply]; f_equal;
      [apply Z.land_diag | apply Z.lor_diag]. }
  rewrite Ef, Eg. cbn [outcome final set_operand_value registers_set].
  repeat split.
  - apply holds_resolve. cbn. unfold RegisterController.get. cbn.
    now rewrite String.eqb_refl.
  - apply holds_resolve. cbn. unfold RegisterController.get. cbn.
    now rewrite String.eqb_refl.
Qed.

(** ** Termination *)
















End Controller.

(** * The properties on the example machine *)

(** C1, counterexample: HLT on the machine at rest raises [ProgramExit]
    after its one cycle; the instruction counter is still 0, it has not
    increased by one.  An LDN that reads the terminator at once raises the
    parse fault before any cycle: the cycle counter is still 0 as well. *)
Lemma hlt_overhead_not_counted :
  let self := Example.machine [] in
  let halted := execute 1 (mkInstruction "hlt" [] []) self in
  let empty := execute 1 (mkInstruction "ldn" [Register "a"; Address "IN" 0] []) self in
  instructions_of self = 0%nat /\
  ticks_of self = 0%nat /\
  outcome halted = Raised ProgramExit /\
  ticks_of (final halted) = 1%nat /\
  instructions_of (final halted) = 0%nat /\
  outcome empty = Raised ValueError /\
  ticks_of (final empty) = 0%nat /\
  instructions_of (final empty) = 0%nat.
Proof. vm_compute. repeat split. Qed.

(** C2, counterexample: INC of a constant faults with
    [OperandIsNotWriteable] and HLT raises [ProgramExit]; after either the
    instruction pointer is still 0, it has not been advanced to 1. *)
Lemma raising_body_skips_pointer_increment :
  let self := Example.machine [] in
  let faulted := execute 1 (mkInstruction "inc" [Constant 5] []) self in
  let halted := execute 1 (mkInstruction "hlt" [] []) self in
  pointer_of self = 0 /\
  outcome faulted = Raised (OperandIsNotWriteable 5) /\
  pointer_of (final faulted) = 0 /\
  outcome halted = Raised ProgramExit /\
  pointer_of (final halted) = 0.
Proof. vm_compute. repeat split. Qed.


(** C7, witness: DIV a, 0 on the machine at rest faults and leaves register
    [a] and the memory as they were. *)
Lemma division_by_zero_faults_witness :
  let self := Example.machine [] in
  let run := _reduce_op operator.floordiv (Register "a") [Constant 0] self in
  outcome run = Raised ALUDZeroDivisionError /\
  outcome (execute 1 (mkInstruction "div" [Register "a"; Constant 0] []) self) =
    Raised ALUDZeroDivisionError /\
  registers (final run) = registers self /\
  memory (final run) = memory self /\
  holds (Register "a") 0 (final run).
Proof.
  cbv zeta.
  destruct (division_by_zero_faults operator.floordiv (Register "a") (Constant 0) []
              0 _ _ 1 (Example.machine [])
              (or_introl eq_refl) eq_refl eq_refl)
    as (Ho & He & Hr & _ & _ & Hm & _ & _ & Hh & _).
  split; [exact Ho |]. split; [exact He |]. split; [exact Hr |].
  split; [exact Hm |]. exact (Hh "a"%string eq_refl).
Defined.


(** LDN with nothing but the terminator on the input stream: the parse
    fault, no cycle, and register [a] untouched. *)
Example ldn_empty_input_faults :
  let self := Example.machine [] in
  let run := i_ldn 1 (Register "a") (Address "IN" 0) self in
  outcome run = Raised ValueError /\
  registers (final run) = registers self /\
  ticks_of (final run) = 0%nat.
Proof. vm_compute. repeat split. Qed.


(** MOVN OUT, -5 sends '-','5'. *)
Example movn_minus_5_on_output :
  Example.output
    (memory (final (i_movn (Address "OUT" 0) (Constant (-5)) (Example.machine [])))) =
  [45; 53].
Proof. reflexivity. Qed.

(** * The further properties on the example machine *)


(** X4, witness: INC then DEC of register [a], which holds 0 on the machine
    at rest, leaves 0 in it after two cycles. *)
Lemma inc_and_dec_are_inverse_witness :
  let self := Example.machine [] in
  holds (Register "a") 1 (final (i_inc (Register "a") self)) /\
  holds (Register "a") 0 (final (i_dec (Register "a") (final (i_inc (Register "a") self)))) /\
  ticks_of (final (i_dec (Register "a") (final (i_inc (Register "a") self)))) = 2%nat.
Proof.
  cbv zeta.
  destruct (inc_and_dec_are_inverse (Register "a") 0 (Example.machine []) I eq_refl)
    as (_ & Hinc & _ & _ & _ & Hback & _ & _ & _ & Hticks & _).
  split; [exact Hinc |]. split; [exact Hback | exact Hticks].
Defined.



(** X9, witness: MOV with a single operand raises [TypeError]; ADD with its
    destination alone raises [IndexError]. *)
Lemma wrong_operand_count_raises_witness :
  let self := Example.machine [] in
  __execute 1 (mkInstruction "mov" [Register "a"] []) self =
    mkRun (Raised TypeError) self [] /\
  __execute 1 (mkInstruction "add" [Register "a"] []) self =
    mkRun (Raised IndexError) self [].
Proof.
  cbv zeta.
  assert (Hin : In "mov"%string mnemonics).
  { unfold mnemonics. cbn [In]. do 17 right. now left. }
  destruct (wrong_operand_count_raises "mov" [Register "a"] operator.add (Register "a") 1
              (Example.machine []) Hin eq_refl) as (Htype & _ & Hindex).
  split; [exact Htype | exact Hindex].
Defined.

(** X10, witness: SUB 5, 5 raises [OperandIsNotWriteable] and leaves Z
    set. *)
Lemma reduction_on_constant_sets_flags_then_faults_witness :
  let run := _reduce_op operator.sub (Constant 5) [Constant 5] (Example.machine []) in
  outcome run = Raised (OperandIsNotWriteable 5) /\
  alu (final run) = ALU.mk true false /\
  ticks_of (final run) = 2%nat.
Proof.
  cbv zeta.
  destruct (reduction_on_constant_sets_flags_then_faults operator.sub (Constant 5)
              (Constant 5) [] 0 (Example.machine []) eq_refl eq_refl)
    as (Ho & Ha & Ht & _).
  split; [exact Ho |]. split; [exact Ha | exact Ht].
Defined.


(** X12, witness: LDN a, 7 is still running after 10 iterations and 10
    cycles. *)
Lemma ldn_on_stable_source_never_ends_witness :
  let run := i_ldn 10 (Register "a") (Constant 7) (Example.machine []) in
  outcome run = Pending /\ ticks_of (final run) = 10%nat.
Proof.
  cbv zeta.
  destruct (ldn_on_stable_source_never_ends (Register "a") (Constant 7) 7 10
              (Example.machine []) (fun m => eq_refl))
    as (Ho & Hf & _).
  - discriminate.
  - split; [discriminate | reflexivity].
  - split; [exact Ho |]. rewrite Hf. reflexivity.
Defined.



(** X15, witness: INC a is no jump and leaves the pointer at 1. *)
Lemma only_jumps_move_pointer_witness :
  pointer_of (final (execute 1 (mkInstruction "inc" [Register "a"] []) (Example.machine [])))
  = 1.
Proof.
  assert (Hseq : sequential (mkInstruction "inc" [Register "a"] []) = true)
    by (vm_compute; reflexivity).
  pose proof (only_jumps_move_pointer 1 (mkInstruction "inc" [Register "a"] [])
                (Example.machine []) Hseq) as Hpointer.
  cbv zeta in Hpointer. rewrite Hpointer. vm_compute. reflexivity.
Defined.

(** X17, witness: two composites with the same sub-instruction, one under
    an unregistered name and with operands of its own, end the same way. *)
Lemma execute_uses_calls_only_witness :
  let inc := mkInstruction "inc" [Register "a"] [] in
  let plain := mkInstruction "group" [] [inc] in
  let odd := mkInstruction "nop" [Constant 1] [mkInstruction "inc" [Register "a"] [inc]] in
  outcome (execute 1 plain (Example.machine [])) =
  outcome (execute 1 odd (Example.machine [])) /\
  same_machine (final (execute 1 plain (Example.machine [])))
    (final (execute 1 odd (Example.machine []))).
Proof.
  cbv zeta.
  destruct (execute_uses_calls_only 1
              (mkInstruction "group" [] [mkInstruction "inc" [Register "a"] []])
              (mkInstruction "nop" [Constant 1]
                 [mkInstruction "inc" [Register "a"]
                    [mkInstruction "inc" [Register "a"] []]])
              (Example.machine []) (Example.machine []))
    as (Ho & Hf & _).
  - repeat constructor.
  - repeat split.
  - split; [exact Ho | exact Hf].
Defined.

(** X19, witness: XOR a, a and AND a, a on the machine at rest. *)
Lemma reduction_of_register_with_itself_witness :
  let self := Example.machine [] in
  holds (Register "a") 0 (final (_reduce_op operator.xor (Register "a") [Register "a"] self)) /\
  alu (final (_reduce_op operator.xor (Register "a") [Register "a"] self)) =
    ALU.mk true false /\
  holds (Register "a") 0 (final (_reduce_op operator.and_ (Register "a") [Register "a"] self)).
Proof.
  cbv zeta.
  destruct (reduction_of_register_with_itself operator.xor operator.and_ "a"
              (Example.machine []) (or_intror eq_refl) (or_introl eq_refl))
    as (_ & Hzero & Hflags & _ & _ & Hkept & _).
  split; [exact Hzero |]. split; [exact Hflags | exact Hkept].
Defined.

